(** * MUF acquisition-and-storage core: a shallow embedding and its properties

    The development follows [app/store.py] (the sliding-window store
    [MUFStore]) and [app/fetcher.py] (the retrying fetch, the station resolver
    and [get_muf_data]) of the repository.

    Modelling conventions.
    - Python [float] is IEEE binary64, modelled by Rocq's primitive floats;
      decimal literals of the source ([40.8], [0.5], ...) denote the same
      nearest binary64 value on both sides.
    - An aware UTC [datetime] is an integer count of microseconds since the
      epoch ([Z]); a [timedelta] is a signed count of microseconds.  Where
      the caller chooses the operand ([get_series]) the range limits of
      [timedelta] and [datetime] are modelled, with their [OverflowError];
      the clock itself is taken to read instants from which the constant
      retention window can be subtracted.
    - [datetime.now], the HTTP transport, [asyncio.sleep] and the two log
      lines of the retry loop are effects on an explicit [world]; every other
      [logger] call is omitted.
    - Values decoded from JSON are [pyval]; a [str] is the sequence of its
      code points, each below 256.
    - The validation of a [float] field by pydantic follows the lax mode
      of pydantic-core 2. *)

From Stdlib Require Import ZArith List String Ascii Bool Lia QArith Sorted.
From Stdlib Require Import PrimFloat FloatOps SpecFloat FloatAxioms.
Import ListNotations.

Set Warnings "-inexact-float,-register-all".

Open Scope Z_scope.

(* ================================================================== *)
(** * Python values and the builtins the source calls *)

Module Py.

(** The exceptions the modelled code can raise. *)
Inductive exn : Type :=
| AttributeError
| TypeError
| ValueError
| OverflowError
| ValidationError.

(** Outcome of an expression that may raise. *)
Inductive result (A : Type) : Type :=
| Ok (a : A)
| Raise (e : exn).

Arguments Ok {A} a.
Arguments Raise {A} e.

Definition rbind {A B : Type} (r : result A) (k : A -> result B) : result B :=
  match r with
  | Ok a => k a
  | Raise e => Raise e
  end.

Definition raises {A : Type} (r : result A) : bool :=
  match r with
  | Ok _ => false
  | Raise _ => true
  end.

(** What [json.loads] produces: [None], [bool], [int], [float], [str],
    [list] and [dict] with string keys (insertion ordered). *)
Inductive pyval : Type :=
| PyNone
| PyBool (b : bool)
| PyInt (z : Z)
| PyFloat (f : float)
| PyStr (s : string)
| PyList (l : list pyval)
| PyDict (d : list (string * pyval)).

(** An insertion-ordered [dict] with string keys. *)
Definition dict (V : Type) : Type := list (string * V).

Fixpoint dict_get {V : Type} (d : dict V) (k : string) : option V :=
  match d with
  | [] => None
  | (k', v) :: rest => if String.eqb k' k then Some v else dict_get rest k
  end.

(** [d[k] = v]: overwrite in place when [k] is present, append otherwise. *)
Fixpoint dict_set {V : Type} (d : dict V) (k : string) (v : V) : dict V :=
  match d with
  | [] => [(k, v)]
  | (k', v') :: rest =>
      if String.eqb k' k then (k', v) :: rest else (k', v') :: dict_set rest k v
  end.

Definition dict_values {V : Type} (d : dict V) : list V := map snd d.

Definition dict_mem {V : Type} (d : dict V) (k : string) : bool :=
  match dict_get d k with
  | Some _ => true
  | None => false
  end.

(** [d.get(k, default)] on a dict. *)
Definition get_default (d : dict pyval) (k : string) (default : pyval) : pyval :=
  match dict_get d k with
  | Some v => v
  | None => default
  end.

(** [obj.get(k, default)] on an arbitrary value: only dicts have [get]. *)
Definition py_get (obj : pyval) (k : string) (default : pyval) : result pyval :=
  match obj with
  | PyDict d => Ok (get_default d k default)
  | _ => Raise AttributeError
  end.

(** Truthiness, as [if not x] reads it. *)
Definition truthy (v : pyval) : bool :=
  match v with
  | PyNone => false
  | PyBool b => b
  | PyInt z => negb (z =? 0)
  | PyFloat f => negb (PrimFloat.eqb f 0%float)
  | PyStr s => negb (String.eqb s EmptyString)
  | PyList l => match l with [] => false | _ :: _ => true end
  | PyDict d => match d with [] => false | _ :: _ => true end
  end.

Fixpoint chars (s : string) : list pyval :=
  match s with
  | EmptyString => []
  | String c s' => PyStr (String c EmptyString) :: chars s'
  end.

(** [for x in v]: lists yield their items, dicts their keys, strings their
    characters; the other JSON values are not iterable. *)
Definition py_iter (v : pyval) : result (list pyval) :=
  match v with
  | PyList l => Ok l
  | PyDict d => Ok (map (fun kv => PyStr (fst kv)) d)
  | PyStr s => Ok (chars s)
  | PyNone | PyBool _ | PyInt _ | PyFloat _ => Raise TypeError
  end.

(** ** Strings

    A [str] is the sequence of its code points, each below 256. *)

(** [c.lower()] for one code point below 256: the capitals are the ASCII
    ones and U+00C0 to U+00DE without the multiplication sign U+00D7. *)
Definition lower_char (c : ascii) : ascii :=
  let n := nat_of_ascii c in
  if (((65 <=? n) && (n <=? 90)) ||
      ((192 <=? n) && (n <=? 222) && negb (n =? 215)))%nat
  then ascii_of_nat (n + 32) else c.

(** [str.lower()]. *)
Fixpoint lower (s : string) : string :=
  match s with
  | EmptyString => EmptyString
  | String c s' => String (lower_char c) (lower s')
  end.

(** [name.lower()]: only [str] has the method. *)
Definition py_lower (v : pyval) : result string :=
  match v with
  | PyStr s => Ok (lower s)
  | _ => Raise AttributeError
  end.

(** [sub in s] for strings. *)
Fixpoint str_in (sub s : string) : bool :=
  String.prefix sub s ||
  match s with
  | EmptyString => false
  | String _ s' => str_in sub s'
  end.

(** ** [float(x)] *)

(** [float(n)] for an [int]: round to nearest even; [None] when the
    magnitude is too large for a binary64 (Python raises [OverflowError]). *)
Definition float_of_Z (z : Z) : option float :=
  let f := SF2Prim (binary_normalize prec emax z 0 false) in
  if PrimFloat.is_infinity f then None else Some f.

(** The binary64 nearest to [(-1)^neg * m * 10^e]; overflow gives an
    infinity, as [float(str)] does. *)
Definition float_of_decimal (neg : bool) (m : Z) (e : Z) : float :=
  match m with
  | Zpos p =>
      if 0 <=? e
      then SF2Prim (binary_normalize prec emax
                      ((if neg then - m else m) * 10 ^ e) 0 false)
      else SF2Prim (SFdiv prec emax (S754_finite neg p 0)
                      (S754_finite false (Z.to_pos (10 ^ (- e))) 0))
  | _ => SF2Prim (S754_zero neg)
  end.

Definition is_space (c : ascii) : bool :=
  let n := nat_of_ascii c in
  ((n =? 32) || ((9 <=? n) && (n <=? 13)))%nat.

Definition is_digit (c : ascii) : bool :=
  let n := nat_of_ascii c in ((48 <=? n) && (n <=? 57))%nat.

Definition digit_val (c : ascii) : Z := Z.of_nat (nat_of_ascii c) - 48.

Definition is_underscore (c : ascii) : bool := Ascii.eqb c "_"%char.

Fixpoint lstrip (s : list ascii) : list ascii :=
  match s with
  | c :: rest => if is_space c then lstrip rest else s
  | [] => []
  end.

Definition strip (s : list ascii) : list ascii := rev (lstrip (rev (lstrip s))).

(** Underscores are accepted only between two digits and are then dropped. *)
Fixpoint drop_underscores (prev : option ascii) (s : list ascii)
  : option (list ascii) :=
  match s with
  | [] =>
      match prev with
      | Some p => if is_underscore p then None else Some []
      | None => Some []
      end
  | c :: rest =>
      if is_underscore c then
        match prev with
        | Some p => if is_digit p then drop_underscores (Some c) rest else None
        | None => None
        end
      else
        let after_underscore :=
          match prev with Some p => is_underscore p | None => false end in
        if after_underscore && negb (is_digit c) then None
        else option_map (cons c) (drop_underscores (Some c) rest)
  end.

Definition take_sign (s : list ascii) : bool * list ascii :=
  match s with
  | c :: rest =>
      if Ascii.eqb c "-"%char then (true, rest)
      else if Ascii.eqb c "+"%char then (false, rest)
      else (false, s)
  | [] => (false, [])
  end.

(** Reads a run of digits: the accumulated value, how many digits were
    read, and the rest of the text. *)
Fixpoint take_digits (s : list ascii) (acc : Z) (n : Z) : Z * Z * list ascii :=
  match s with
  | c :: rest =>
      if is_digit c then take_digits rest (10 * acc + digit_val c) (n + 1)
      else (acc, n, s)
  | [] => (acc, n, [])
  end.

(** Digits, an optional fraction and an optional exponent; the whole text
    must be consumed.  Returns the integer mantissa and the power of ten. *)
Definition parse_decimal (s : list ascii) : option (Z * Z) :=
  let '(ip, ni, r1) := take_digits s 0 0 in
  let '(m, nf, r2) :=
    match r1 with
    | c :: r => if Ascii.eqb c "."%char then take_digits r ip 0 else (ip, 0, r1)
    | [] => (ip, 0, r1)
    end in
  if ni + nf =? 0 then None
  else
    match r2 with
    | [] => Some (m, - nf)
    | c :: r3 =>
        if Ascii.eqb (lower_char c) "e"%char then
          let '(eneg, r4) := take_sign r3 in
          let '(ev, ne, r5) := take_digits r4 0 0 in
          match r5 with
          | [] => if ne =? 0 then None
                  else Some (m, (if eneg then - ev else ev) - nf)
          | _ :: _ => None
          end
        else None
    end.

(** An optional sign, then an infinity, a NaN or a decimal number, and
    nothing else: no white space, no underscore. *)
Definition parse_float_text (t : list ascii) : option float :=
  let '(neg, body) := take_sign t in
  let word := lower (string_of_list_ascii body) in
  if String.eqb word "inf" || String.eqb word "infinity"
  then Some (if neg then neg_infinity else infinity)
  else if String.eqb word "nan" then Some nan
  else
    match parse_decimal body with
    | Some (m, e) => Some (float_of_decimal neg m e)
    | None => None
    end.

Definition float_of_ascii (s : list ascii) : option float :=
  match drop_underscores None (strip s) with
  | None => None
  | Some t => parse_float_text t
  end.

(** Before parsing a [str], [float] turns its non-ASCII white space into
    spaces: below 256 these are U+0085 and U+00A0.  Any other non-ASCII
    character is left in place and makes the text invalid. *)
Definition space_to_ascii (c : ascii) : ascii :=
  let n := nat_of_ascii c in
  if ((n =? 133) || (n =? 160))%nat then " "%char else c.

(** [float(s)] for a [str]; [None] stands for [ValueError]. *)
Definition float_of_string (s : string) : option float :=
  float_of_ascii (map space_to_ascii (list_ascii_of_string s)).

(** [float(v)]. *)
Definition py_float (v : pyval) : result float :=
  match v with
  | PyFloat f => Ok f
  | PyInt z =>
      match float_of_Z z with
      | Some f => Ok f
      | None => Raise OverflowError
      end
  | PyBool b => Ok (if b then 1%float else 0%float)
  | PyStr s =>
      match float_of_string s with
      | Some f => Ok f
      | None => Raise ValueError
      end
  | PyNone | PyList _ | PyDict _ => Raise TypeError
  end.

End Py.

(* ================================================================== *)
(** * The validation of a [float] field by pydantic *)

Module Pydantic.
Import Py.

(** White space as [str::trim] of Rust sees it: below 256, the ASCII
    white space, U+0085 and U+00A0. *)
Definition is_whitespace (c : ascii) : bool :=
  let n := nat_of_ascii c in
  (is_space c || (n =? 133) || (n =? 160))%nat.

Fixpoint trim_start (s : list ascii) : list ascii :=
  match s with
  | c :: rest => if is_whitespace c then trim_start rest else s
  | [] => []
  end.

Definition trim (s : list ascii) : list ascii :=
  rev (trim_start (rev (trim_start s))).

Fixpoint has_double_underscore (s : list ascii) : bool :=
  match s with
  | c :: rest =>
      match rest with
      | d :: _ =>
          (is_underscore c && is_underscore d) || has_double_underscore rest
      | [] => false
      end
  | [] => false
  end.

(** [strip_underscores]: nothing when the text starts or ends with an
    underscore, has none, or has two in a row; else the text without its
    underscores. *)
Definition strip_underscores (s : list ascii) : option (list ascii) :=
  if match s with c :: _ => is_underscore c | [] => false end
     || match rev s with c :: _ => is_underscore c | [] => false end
     || negb (existsb is_underscore s)
     || has_double_underscore s
  then None
  else Some (filter (fun c => negb (is_underscore c)) s).

(** [str_as_float]: the trimmed text is parsed as it is; when that fails,
    the untrimmed text is parsed with its underscores removed. *)
Definition str_as_float (s : string) : option float :=
  let text := list_ascii_of_string s in
  match parse_float_text (trim text) with
  | Some f => Some f
  | None =>
      match strip_underscores text with
      | Some stripped => parse_float_text stripped
      | None => None
      end
  end.

(** A [float] field in lax mode: a float as it is, text through
    [str_as_float], an int or a bool converted; an int too large for a
    float and any other value are validation errors. *)
Definition validate_float (v : pyval) : result float :=
  match v with
  | PyFloat f => Ok f
  | PyStr s =>
      match str_as_float s with
      | Some f => Ok f
      | None => Raise ValidationError
      end
  | PyInt z =>
      match float_of_Z z with
      | Some f => Ok f
      | None => Raise ValidationError
      end
  | PyBool b => Ok (if b then 1%float else 0%float)
  | PyNone | PyList _ | PyDict _ => Raise ValidationError
  end.

End Pydantic.


(* ================================================================== *)
(** * The outside world: clock, HTTP transport, sleeps and the retry log *)

Module Env.
Import Py.

(** One pass through the [try] block of the fetch loop: either the GET, the
    status check and the JSON decoding all succeed, or an [Exception] is
    raised by one of them (network error, timeout, bad status, bad body). *)
Inductive http_outcome : Type :=
| Parsed (body : pyval)
| Failed.

(** What the retry loop leaves behind, in order. *)
Inductive event : Type :=
| Request
| Warning (attempt : nat) (delay : float)
| Sleep (delay : float)
| Error.

(** [clock n] is what the [n]-th call of [datetime.now(timezone.utc)]
    returns, [transport n] what the [n]-th GET does. *)
Record world : Type := {
  clock : nat -> Z;
  ticks : nat;
  transport : nat -> http_outcome;
  requests : nat;
  trace : list event
}.

Definition Eff (A : Type) : Type := world -> A * world.

Definition ret {A : Type} (a : A) : Eff A := fun w => (a, w).

Definition bind {A B : Type} (m : Eff A) (k : A -> Eff B) : Eff B :=
  fun w => let (a, w') := m w in k a w'.

Definition emit (e : event) : Eff unit :=
  fun w => (tt, {| clock := clock w; ticks := ticks w;
                   transport := transport w; requests := requests w;
                   trace := trace w ++ [e] |}).

(** [datetime.now(timezone.utc)]. *)
Definition now : Eff Z :=
  fun w => (clock w (ticks w),
            {| clock := clock w; ticks := S (ticks w);
               transport := transport w; requests := requests w;
               trace := trace w |}).

(** [client.get(API_URL)], [raise_for_status()] and [json()]. *)
Definition http_get : Eff http_outcome :=
  fun w => (transport w (requests w),
            {| clock := clock w; ticks := ticks w;
               transport := transport w; requests := S (requests w);
               trace := trace w ++ [Request] |}).

(** [asyncio.sleep(delay)]. *)
Definition sleep (delay : float) : Eff unit := emit (Sleep delay).

(** The clock readings taken while going from [w] to [w']. *)
Definition read_between (w w' : world) (t : Z) : Prop :=
  exists n : nat, (ticks w <= n < ticks w')%nat /\ t = clock w n.

Definition sleeps (tr : list event) : list float :=
  flat_map (fun e => match e with Sleep d => [d] | _ => [] end) tr.

Definition count_requests (tr : list event) : nat :=
  List.length (filter (fun e => match e with Request => true | _ => false end) tr).

End Env.

Declare Scope eff_scope.
Delimit Scope eff_scope with eff.
Notation "x <- m ;; k" := (Env.bind m (fun x => k))
  (at level 100, m at next level, right associativity) : eff_scope.
Notation "m ;;; k" := (Env.bind m (fun _ => k))
  (at level 100, right associativity) : eff_scope.

(* ================================================================== *)
(** * app/models.py *)

Module Models.

(** The two values [MUFData.status] takes. *)
Inductive Status : Type :=
| OK
| STALE.

Record MUFData : Type := {
  roquetes : option float;
  arenosillo : option float;
  avg : option float;
  ts : Z;
  status : Status
}.

(** [MUFSeries]; the four parallel lists carry an [s_] prefix to keep them
    apart from the fields of [MUFData]. *)
Record MUFSeries : Type := {
  s_timestamps : list Z;
  s_roquetes : list (option float);
  s_arenosillo : list (option float);
  s_avg : list (option float)
}.

Record StationData : Type := {
  name : string;
  latitude : float;
  longitude : float;
  mufd : option float;
  timestamp : option Z
}.

End Models.

(* ================================================================== *)
(** * app/store.py *)

Module Store.
Import Py Env Models.
#[local] Open Scope eff_scope.

Definition WINDOW_MINUTES : Z := 60.
Definition STALE_THRESHOLD_SECONDS : Z := 600.

(** [timedelta(minutes=m)], in microseconds. *)
Definition timedelta_minutes (m : Z) : Z := m * 60000000.

(** [td.total_seconds()].  Python rounds this quotient to a binary64.  The
    rounding is monotone, 600 is a binary64, and a whole number of
    microseconds other than 600 s differs from it by at least 1e-6 s, far
    more than the spacing of binary64 values there; so comparing the exact
    quotient with the threshold gives the same answer. *)
Definition total_seconds (td : Z) : Q := td # 1000000.

Record MUFStore : Type := {
  _buffer : list MUFData
}.

(** [MUFStore()]. *)
Definition init : MUFStore := {| _buffer := [] |}.

(** The loop of [_cleanup_old_data]: pop from the left while the first
    point is older than the cutoff. *)
Fixpoint popleft_while_old (cutoff_time : Z) (buffer : list MUFData)
  : list MUFData :=
  match buffer with
  | [] => []
  | p :: rest =>
      if ts p <? cutoff_time then popleft_while_old cutoff_time rest
      else buffer
  end.

Definition _cleanup_old_data (self : MUFStore) : Eff MUFStore :=
  t <- now ;;
  let cutoff_time := t - timedelta_minutes WINDOW_MINUTES in
  ret {| _buffer := popleft_while_old cutoff_time (_buffer self) |}.

(** [(roquetes + arenosillo) / 2] when both are given. *)
Definition average (roquetes arenosillo : option float) : option float :=
  match roquetes, arenosillo with
  | Some r, Some a => Some ((r + a) / 2)%float
  | _, _ => None
  end.

Definition add_data_point (self : MUFStore)
    (roquetes arenosillo : option float) (timestamp : Z) : Eff MUFStore :=
  let avg := average roquetes arenosillo in
  t <- now ;;
  let time_diff := total_seconds (t - timestamp) in
  let status :=
    if Qle_bool time_diff (inject_Z STALE_THRESHOLD_SECONDS) then OK
    else STALE in
  let data_point :=
    {| roquetes := roquetes; arenosillo := arenosillo; avg := avg;
       ts := timestamp; status := status |} in
  _cleanup_old_data {| _buffer := _buffer self ++ [data_point] |}.

Definition set_status (p : MUFData) (s : Status) : MUFData :=
  {| roquetes := roquetes p; arenosillo := arenosillo p; avg := avg p;
     ts := ts p; status := s |}.

(** [buffer[-1]]. *)
Fixpoint last_point (buffer : list MUFData) : option MUFData :=
  match buffer with
  | [] => None
  | [p] => Some p
  | _ :: rest => last_point rest
  end.

(** Replaces [buffer[-1]], the object [get_latest] updates in place. *)
Fixpoint set_last_point (buffer : list MUFData) (q : MUFData) : list MUFData :=
  match buffer with
  | [] => []
  | [_] => [q]
  | p :: rest => p :: set_last_point rest q
  end.

(** Returns the latest point together with the store, whose last point
    now carries the re-evaluated status. *)
Definition get_latest (self : MUFStore) : Eff (option MUFData * MUFStore) :=
  match last_point (_buffer self) with
  | None => ret (None, self)
  | Some latest =>
      t <- now ;;
      let time_diff := total_seconds (t - ts latest) in
      let latest :=
        if Qle_bool time_diff (inject_Z STALE_THRESHOLD_SECONDS) then latest
        else set_status latest STALE in
      ret (Some latest, {| _buffer := set_last_point (_buffer self) latest |})
  end.

(** The least and the greatest [datetime], 0001-01-01T00:00:00 and
    9999-12-31T23:59:59.999999, in microseconds since the epoch. *)
Definition DATETIME_MIN : Z := -62135596800000000.
Definition DATETIME_MAX : Z := 253402300799999999.

(** [timedelta(minutes=m)] for an [int]: the days of the normalized value
    must not exceed 999999999 in magnitude, or it is an [OverflowError]. *)
Definition timedelta_of_minutes (m : Z) : result Z :=
  let days := m / 1440 in
  if (-999999999 <=? days) && (days <=? 999999999)
  then Ok (timedelta_minutes m)
  else Raise OverflowError.

(** [d - td] for a [datetime] and a [timedelta]: an [OverflowError] when
    the result is not a [datetime]. *)
Definition datetime_sub (d td : Z) : result Z :=
  let r := d - td in
  if (DATETIME_MIN <=? r) && (r <=? DATETIME_MAX) then Ok r
  else Raise OverflowError.

(** Returns the series, or the exception of the cutoff computation,
    together with the store, which it leaves as it is. *)
Definition get_series (self : MUFStore) (window_minutes : Z)
  : Eff (result MUFSeries * MUFStore) :=
  t <- now ;;
  match rbind (timedelta_of_minutes window_minutes) (datetime_sub t) with
  | Raise e => ret (Raise e, self)
  | Ok cutoff_time =>
      let filtered_data :=
        filter (fun point => cutoff_time <=? ts point) (_buffer self) in
      ret (Ok {| s_timestamps := map ts filtered_data;
                 s_roquetes := map roquetes filtered_data;
                 s_arenosillo := map arenosillo filtered_data;
                 s_avg := map avg filtered_data |}, self)
  end.

Definition get_window_size (self : MUFStore) : nat := List.length (_buffer self).

Definition clear (self : MUFStore) : MUFStore := {| _buffer := [] |}.

(** A client of the store: any sequence of calls of its public methods. *)
Inductive call : Type :=
| AddDataPoint (roquetes arenosillo : option float) (timestamp : Z)
| GetLatest
| GetSeries (window_minutes : Z)
| GetWindowSize
| Clear.

Definition exec (c : call) (self : MUFStore) : Eff MUFStore :=
  match c with
  | AddDataPoint r a t => add_data_point self r a t
  | GetLatest => r <- get_latest self ;; ret (snd r)
  | GetSeries m => r <- get_series self m ;; ret (snd r)
  | GetWindowSize => ret self
  | Clear => ret (clear self)
  end.

Fixpoint run (cs : list call) (self : MUFStore) : Eff MUFStore :=
  match cs with
  | [] => ret self
  | c :: rest => self' <- exec c self ;; run rest self'
  end.

(** Appends were made in chronological order. *)
Definition chronological (buffer : list MUFData) : Prop :=
  StronglySorted (fun p q => ts p <= ts q) buffer.

End Store.

(* ================================================================== *)
(** * app/fetcher.py *)

Module Fetcher.
Import Py Pydantic Env Models.
#[local] Open Scope eff_scope.
#[local] Open Scope string_scope.

Definition MAX_RETRIES : nat := 3.
Definition RETRY_DELAYS : list float := [0.5; 1; 2]%float.

(** The body of [for attempt in range(MAX_RETRIES)], over the attempts
    still to be made.  Running off the end of the loop returns [None]. *)
Fixpoint attempts_loop (attempts : list nat) : Eff pyval :=
  match attempts with
  | [] => ret PyNone
  | attempt :: rest =>
      r <- http_get ;;
      match r with
      | Parsed body => ret body
      | Failed =>
          let delay :=
            nth (Nat.min attempt (List.length RETRY_DELAYS - 1))
                RETRY_DELAYS 0%float in
          (emit (Warning (attempt + 1) delay) ;;;
           if (attempt <? MAX_RETRIES - 1)%nat
           then (sleep delay ;;; attempts_loop rest)
           else (emit Error ;;; ret PyNone))
      end
  end.

(** Returns the decoded body, or [None] once every attempt has failed. *)
Definition fetch_stations_data : Eff pyval :=
  attempts_loop (seq 0 MAX_RETRIES).

Definition SPAIN_LAT_MIN : float := 36%float.
Definition SPAIN_LAT_MAX : float := 44%float.
Definition SPAIN_LON_MIN : float := (-9.5)%float.
Definition SPAIN_LON_MAX : float := 4.5%float.

(** The bounding-box test; its [try] turns a [ValueError] or [TypeError]
    of the conversions into [False]. *)
Definition is_spanish_station (station_data : pyval) : result bool :=
  let body :=
    rbind (py_get station_data "station" (PyDict [])) (fun station_info =>
    rbind (py_get station_info "latitude" (PyInt 0)) (fun lat_v =>
    rbind (py_float lat_v) (fun lat =>
    rbind (py_get station_info "longitude" (PyInt 0)) (fun lon_v =>
    rbind (py_float lon_v) (fun lon =>
    Ok ((SPAIN_LAT_MIN <=? lat) && (lat <=? SPAIN_LAT_MAX) &&
        (SPAIN_LON_MIN <=? lon) && (lon <=? SPAIN_LON_MAX))%float))))) in
  match body with
  | Raise ValueError | Raise TypeError => Ok false
  | r => r
  end.

(** "Recherche par nom". *)
Definition name_match (name_lower : string) : option string :=
  if str_in "roquetes" name_lower || str_in "ebre" name_lower
  then Some "roquetes"
  else if str_in "arenosillo" name_lower then Some "arenosillo"
  else None.

(** The tolerance test against one centroid. *)
Definition near (lat lon clat clon : float) : bool :=
  ((abs (lat - clat) <? 0.5) && (abs (lon - clon) <? 0.5))%float.

(** "Recherche par coordonnees approximatives". *)
Definition geo_match (lat lon : float) : option string :=
  if near lat lon 40.8%float 0.5%float then Some "roquetes"
  else if near lat lon 37.1%float (-6.7)%float then Some "arenosillo"
  else None.

(** From a record to its normalized name: the name test first, the
    coordinates only when the name matched nothing. *)
Definition identify (station : dict pyval) : result (option string) :=
  let station_info := get_default station "station" (PyDict []) in
  rbind (py_get station_info "code" (PyStr "")) (fun code =>
  rbind (py_get station_info "name" (PyStr "")) (fun name =>
  rbind (py_lower name) (fun name_lower =>
  match name_match name_lower with
  | Some normalized_name => Ok (Some normalized_name)
  | None =>
      rbind (py_get station_info "latitude" (PyInt 0)) (fun lat_v =>
      rbind (py_float lat_v) (fun lat =>
      rbind (py_get station_info "longitude" (PyInt 0)) (fun lon_v =>
      rbind (py_float lon_v) (fun lon =>
      Ok (geo_match lat lon)))))
  end))).

(** Validation of an [Optional[float]] field: [None] stays, anything else
    goes through the validation of a [float] field. *)
Definition validate_optional_float (v : pyval) : result (option float) :=
  match v with
  | PyNone => Ok None
  | _ => rbind (validate_float v) (fun f => Ok (Some f))
  end.

(** [StationData(name=..., latitude=float(...), longitude=float(...),
    mufd=mufd, timestamp=timestamp)] for a record. *)
Definition station_data (station : dict pyval) (timestamp : Z)
  : result StationData :=
  let station_info := get_default station "station" (PyDict []) in
  let mufd := get_default station "mufd" PyNone in
  rbind (py_get station_info "name" (PyStr "")) (fun name =>
  rbind (py_get station_info "latitude" (PyInt 0)) (fun lat_v =>
  rbind (py_float lat_v) (fun lat =>
  rbind (py_get station_info "longitude" (PyInt 0)) (fun lon_v =>
  rbind (py_float lon_v) (fun lon =>
  match name with
  | PyStr name =>
      rbind (validate_optional_float mufd) (fun mufd =>
      Ok {| name := name; latitude := lat; longitude := lon;
            mufd := mufd; timestamp := Some timestamp |})
  | _ => Raise ValidationError
  end))))).

(** The body of [for station in stations_data]. *)
Definition station_step (spanish_stations : dict StationData)
    (station : pyval) : Eff (result (dict StationData)) :=
  match station with
  | PyDict d =>
      match identify d with
      | Raise e => ret (Raise e)
      | Ok None => ret (Ok spanish_stations)
      | Ok (Some normalized_name) =>
          timestamp <- now ;;
          ret (rbind (station_data d timestamp) (fun sd =>
               Ok (dict_set spanish_stations normalized_name sd)))
      end
  | _ => ret (Ok spanish_stations)
  end.

Fixpoint stations_loop (spanish_stations : dict StationData)
    (stations : list pyval) : Eff (result (dict StationData)) :=
  match stations with
  | [] => ret (Ok spanish_stations)
  | station :: rest =>
      r <- station_step spanish_stations station ;;
      match r with
      | Ok spanish_stations' => stations_loop spanish_stations' rest
      | Raise e => ret (Raise e)
      end
  end.

Definition filter_spanish_stations (stations_data : pyval)
  : Eff (result (dict StationData)) :=
  match py_iter stations_data with
  | Raise e => ret (Raise e)
  | Ok stations => stations_loop [] stations
  end.

(** "Utiliser le timestamp le plus recent". *)
Definition latest_of (stations : list StationData) : option Z :=
  fold_left
    (fun latest_timestamp station =>
       match timestamp station, latest_timestamp with
       | Some t, None => Some t
       | Some t, Some l => if (l <? t)%Z then Some t else latest_timestamp
       | None, _ => latest_timestamp
       end)
    stations None.

Definition muf_of (spanish_stations : dict StationData) (k : string)
  : option float :=
  match dict_get spanish_stations k with
  | Some sd => mufd sd
  | None => None
  end.

Definition get_muf_data
  : Eff (result (option float * option float * option Z)) :=
  stations_data <- fetch_stations_data ;;
  if negb (truthy stations_data) then ret (Ok (None, None, None))
  else
    r <- filter_spanish_stations stations_data ;;
    match r with
    | Raise e => ret (Raise e)
    | Ok spanish_stations =>
        let roquetes_muf := muf_of spanish_stations "roquetes" in
        let arenosillo_muf := muf_of spanish_stations "arenosillo" in
        match latest_of (dict_values spanish_stations) with
        | Some t => ret (Ok (roquetes_muf, arenosillo_muf, Some t))
        | None =>
            t <- now ;;
            ret (Ok (roquetes_muf, arenosillo_muf, Some t))
        end
    end.

End Fetcher.

(* ================================================================== *)
(** * The refresh job and the readers (main.py, kept under backups/app) *)

Module Main.
Import Py Env Models Store Fetcher.
#[local] Open Scope eff_scope.

(** [update_muf_data], on the process-wide [muf_store]: every [Exception]
    of the body is logged and swallowed. *)
Definition update_muf_data (muf_store : MUFStore) : Eff MUFStore :=
  r <- get_muf_data ;;
  match r with
  | Raise _ => ret muf_store
  | Ok (roquetes, arenosillo, timestamp) =>
      timestamp <- match timestamp with
                   | None => now
                   | Some t => ret t
                   end ;;
      add_data_point muf_store roquetes arenosillo timestamp
  end.

(** [force_refresh]: one update, then the latest point. *)
Definition force_refresh (muf_store : MUFStore)
  : Eff (option MUFData * MUFStore) :=
  muf_store <- update_muf_data muf_store ;;
  get_latest muf_store.

(** [health_check]: the clock reading and the number of stored points. *)
Definition health_check (muf_store : MUFStore) : Eff (Z * nat) :=
  t <- now ;;
  ret (t, get_window_size muf_store).

Section Endpoints.

(** [round(x, 1)] on a float: a float for every float, left abstract. *)
Variable round1 : float -> float.

(** The three assignments [latest.x = round(latest.x, 1)], each guarded by
    [is not None]. *)
Definition rounded (latest : MUFData) : MUFData :=
  {| roquetes := option_map round1 (roquetes latest);
     arenosillo := option_map round1 (arenosillo latest);
     avg := option_map round1 (avg latest);
     ts := ts latest; status := status latest |}.

(** [get_latest_muf]: [latest] is the object held by the buffer, so the
    rounded values are written into the store. *)
Definition get_latest_muf (muf_store : MUFStore)
  : Eff (MUFData * MUFStore) :=
  r <- get_latest muf_store ;;
  match fst r with
  | None =>
      t <- now ;;
      ret ({| roquetes := None; arenosillo := None; avg := None;
              ts := t; status := STALE |}, snd r)
  | Some latest =>
      let latest := rounded latest in
      ret (latest, {| _buffer := set_last_point (_buffer (snd r)) latest |})
  end.

(** What reaches the store: the scheduled update, the pages that call
    [get_latest], the latest-value endpoint, the series endpoint and the
    chart, the health check and the forced refresh. *)
Inductive request : Type :=
| Update
| Latest
| LatestApi
| Series (window : Z)
| Health
| Refresh.

Definition serve (rq : request) (muf_store : MUFStore) : Eff MUFStore :=
  match rq with
  | Update => update_muf_data muf_store
  | Latest => r <- get_latest muf_store ;; ret (snd r)
  | LatestApi => r <- get_latest_muf muf_store ;; ret (snd r)
  | Series window => r <- get_series muf_store window ;; ret (snd r)
  | Health => _ <- health_check muf_store ;; ret muf_store
  | Refresh => r <- force_refresh muf_store ;; ret (snd r)
  end.

Fixpoint serve_all (rqs : list request) (muf_store : MUFStore)
  : Eff MUFStore :=
  match rqs with
  | [] => ret muf_store
  | rq :: rest => s <- serve rq muf_store ;; serve_all rest s
  end.

End Endpoints.

End Main.

(* ================================================================== *)
(** * Sample worlds and payloads *)

Module Samples.
Import Py Env Models.
#[local] Open Scope string_scope.

(** A transport that fails every attempt and a clock that advances one
    second per reading, starting at [start]. *)
Definition dead_world (start : Z) : world :=
  {| clock := fun n => start + Z.of_nat n * 1000000; ticks := 0;
     transport := fun _ => Failed; requests := 0; trace := [] |}.

(** A transport that answers [body] at once. *)
Definition live_world (start : Z) (body : pyval) : world :=
  {| clock := fun n => start + Z.of_nat n * 1000000; ticks := 0;
     transport := fun _ => Parsed body; requests := 0; trace := [] |}.

(** A world whose clock returns the listed readings in turn (and the
    last one for ever after). *)
Definition clock_world (readings : list Z) : world :=
  {| clock := fun n => nth n readings (last readings 0); ticks := 0;
     transport := fun _ => Failed; requests := 0; trace := [] |}.

Definition record (name : string) (lat lon : pyval) (mufd : pyval) : pyval :=
  PyDict [("station", PyDict [("name", PyStr name); ("latitude", lat);
                              ("longitude", lon)]);
          ("mufd", mufd)].

Definition minute : Z := 60000000.

(** 2023-11-14T22:13:20Z, in microseconds since the epoch. *)
Definition t0 : Z := 1700000000000000.

End Samples.

(* ================================================================== *)
(** * Vocabulary of the statements *)

Module Props.
Import Py Env Models Store Fetcher.

(** ** The store *)

(** The derived average of a point agrees with its two station values. *)
Definition average_invariant (p : MUFData) : Prop :=
  (avg p <> None <-> roquetes p <> None /\ arenosillo p <> None) /\
  (forall a b : float,
      roquetes p = Some a -> arenosillo p = Some b ->
      avg p = Some ((a + b) / 2)%float).

(** Two readings of one point: nothing differs except possibly the status. *)
Definition same_values (p q : MUFData) : Prop :=
  roquetes p = roquetes q /\ arenosillo p = arenosillo q /\
  avg p = avg q /\ ts p = ts q.

(** [q] is a later state of the point [p]: same values, and a stale point
    stays stale. *)
Definition ages (p q : MUFData) : Prop :=
  same_values p q /\ (status p = STALE -> status q = STALE).

Definition cutoff_of (t : Z) : Z := t - timedelta_minutes WINDOW_MINUTES.

(** The point [add_data_point] builds. *)
Definition new_point (r a : option float) (T : Z) (st : Status) : MUFData :=
  {| roquetes := r; arenosillo := a; avg := average r a; ts := T;
     status := st |}.

(** The status [add_data_point] gives a point stamped [T] when the clock
    reads [t]. *)
Definition initial_status (t T : Z) : Status :=
  if Qle_bool (total_seconds (t - T)) (inject_Z STALE_THRESHOLD_SECONDS)
  then OK else STALE.

(** The status that [get_latest] leaves on the latest point. *)
Definition reread (t : Z) (latest : MUFData) : MUFData :=
  if Qle_bool (total_seconds (t - ts latest))
       (inject_Z STALE_THRESHOLD_SECONDS)
  then latest else set_status latest STALE.

(** What the call [c] does to the buffer.  The points still stored are a
    suffix [kept] of the old buffer, in place.  An append leaves them as
    they are, may drop points at the front, and adds at most its own
    point at the back; [get_latest] drops and adds nothing, and the
    points only age; a series or a size request changes nothing; [clear]
    keeps nothing. *)
Definition evolves (c : call) (before after : list MUFData) : Prop :=
  exists dropped kept kept' added : list MUFData,
    before = dropped ++ kept /\ after = kept' ++ added /\
    Forall2 ages kept kept' /\
    match c with
    | AddDataPoint r a T =>
        kept' = kept /\
        (added = [] \/ exists st : Status, added = [new_point r a T st])
    | GetLatest => dropped = [] /\ added = []
    | GetSeries _ | GetWindowSize =>
        dropped = [] /\ added = [] /\ kept' = kept
    | Clear => kept = [] /\ added = []
    end.

(** The calls that are not an append and not [clear]. *)
Definition reads (c : call) : bool :=
  match c with
  | AddDataPoint _ _ _ | Clear => false
  | GetLatest | GetSeries _ | GetWindowSize => true
  end.

(** The cutoff [t - timedelta(minutes=m)] exists: the window is a
    [timedelta] and the difference is a [datetime]. *)
Definition window_in_range (t m : Z) : bool :=
  (-999999999 <=? m / 1440) && (m / 1440 <=? 999999999) &&
  (DATETIME_MIN <=? t - timedelta_minutes m) &&
  (t - timedelta_minutes m <=? DATETIME_MAX).

(** ** The fetcher *)

(** The transport fails each of the next [MAX_RETRIES] requests. *)
Definition transport_down (w : world) : Prop :=
  forall n : nat,
    (requests w <= n < requests w + MAX_RETRIES)%nat -> transport w n = Failed.

(** What an exhausted fetch leaves in the trace. *)
Definition exhausted_trace : list event :=
  [Request; Warning 1 0.5%float; Sleep 0.5%float;
   Request; Warning 2 1%float; Sleep 1%float;
   Request; Warning 3 2%float; Error].

(** The world after [n] more requests that left the events [es]. *)
Definition after (w : world) (n : nat) (es : list event) : world :=
  {| clock := clock w; ticks := ticks w; transport := transport w;
     requests := n + requests w; trace := (trace w ++ es)%list |}.

(** The normalized name of any item of the payload; items that are not
    dicts are skipped. *)
Definition key_of (station : pyval) : result (option string) :=
  match station with
  | PyDict d => identify d
  | _ => Ok None
  end.

(** A record the loop body goes through without raising. *)
Definition resolves (station : pyval) : bool :=
  match station with
  | PyDict d =>
      match identify d with
      | Raise _ => false
      | Ok None => true
      | Ok (Some _) => negb (raises (station_data d 0))
      end
  | _ => true
  end.

(** The clock of [w'] is the clock of [w], read further. *)
Definition extends (w w' : world) : Prop :=
  clock w' = clock w /\ (ticks w <= ticks w')%nat.

(** The entry was stamped with a clock reading taken between [w0] and [w]. *)
Definition stamped (w0 w : world) (kv : string * StationData) : Prop :=
  exists t : Z, timestamp (snd kv) = Some t /\ read_between w0 w t.

(** ** Binary64 *)

(** One half, as a specification float. *)
Definition half : spec_float := S754_finite false 4503599627370496 (-53).

End Props.

(* ================================================================== *)
(** * Vocabulary of the further statements *)

Module MoreProps.
Import Py Env Models Store Fetcher Props.

(** The clock never goes back. *)
Definition monotone_clock (w : world) : Prop :=
  forall i j : nat, (i <= j)%nat -> clock w i <= clock w j.

(** The bounding box of [is_spanish_station]. *)
Definition in_spain (lat lon : float) : bool :=
  ((SPAIN_LAT_MIN <=? lat) && (lat <=? SPAIN_LAT_MAX) &&
   (SPAIN_LON_MIN <=? lon) && (lon <=? SPAIN_LON_MAX))%float.

Definition is_error (e : event) : bool :=
  match e with
  | Error => true
  | _ => false
  end.

(** The loop body raises [e] on this item, at classification or when the
    [StationData] is built. *)
Definition step_raises (station : pyval) (e : exn) : Prop :=
  key_of station = Raise e \/
  exists (d : dict pyval) (k : string),
    station = PyDict d /\ identify d = Ok (Some k) /\
    station_data d 0 = Raise e.

(** The timestamp of the point is one of the first [n] readings of the
    clock. *)
Definition read_before (w : world) (n : nat) (p : MUFData) : Prop :=
  exists i : nat, (i < n)%nat /\ ts p = clock w i.

(** The value of a finite binary64, counted in units of [2^-1074]. *)
Definition scaled (x : spec_float) : Z :=
  match x with
  | S754_finite s m e => cond_Zopp s (Zpos m * 2 ^ (e + 1074))
  | _ => 0
  end.

(** One half, in the same units. *)
Definition half_scaled : Z := 2 ^ 1073.

Definition finite_or_zero (x : spec_float) : bool :=
  match x with
  | S754_zero _ | S754_finite _ _ _ => true
  | _ => false
  end.

(** The exponent of a finite number is at most [-1]. *)
Definition small_exponent (x : spec_float) : bool :=
  match x with
  | S754_finite _ _ e => e <=? -1
  | _ => false
  end.

(** What a failed attempt that is not the last leaves in the trace: the
    request, the warning with the delay chosen, and the sleep. *)
Definition failed_attempt (attempt : nat) : list event :=
  let delay := nth attempt RETRY_DELAYS 0%float in
  [Request; Warning (attempt + 1) delay; Sleep delay].

(** The trace of a fetch whose attempts [0 .. k-1] fail and whose attempt
    [k] succeeds. *)
Definition recovered_trace (k : nat) : list event :=
  (flat_map failed_attempt (seq 0 k) ++ [Request])%list.

(** The value [get_muf_data] returns for one of the two stations. *)
Definition component (k : string) (ro ar : option float) : option float :=
  if String.eqb k "roquetes" then ro else ar.

End MoreProps.

(* ================================================================== *)
(** * Properties of the store *)

Module StoreSpec.
Import Py Env Models Store Samples Props.

(** ** Prefix trimming *)

Lemma popleft_suffix (c : Z) (l : list MUFData) :
  exists dropped : list MUFData,
    l = dropped ++ popleft_while_old c l /\
    Forall (fun p => ts p < c) dropped.
Proof.
  induction l as [|p l IH]; cbn.
  - exists []. split; [reflexivity | constructor].
  - destruct (ts p <? c) eqn:E.
    + destruct IH as (d & Hl & Hd). exists (p :: d). split.
      * cbn. now rewrite <- Hl.
      * constructor; [now apply Z.ltb_lt | exact Hd].
    + exists []. split; [reflexivity | constructor].
Qed.

Lemma popleft_Forall (P : MUFData -> Prop) (c : Z) (l : list MUFData) :
  Forall P l -> Forall P (popleft_while_old c l).
Proof.
  intros H. destruct (popleft_suffix c l) as (d & Hl & _).
  rewrite Hl in H. now apply Forall_app in H.
Qed.

Lemma popleft_In (c : Z) (l : list MUFData) (p : MUFData) :
  In p (popleft_while_old c l) -> In p l.
Proof.
  intros H. destruct (popleft_suffix c l) as (d & Hl & _).
  rewrite Hl. apply in_or_app. now right.
Qed.

Lemma popleft_chronological (c : Z) (l : list MUFData) :
  chronological l -> chronological (popleft_while_old c l).
Proof.
  unfold chronological. induction 1 as [|p l Hs IH Hp]; cbn.
  - constructor.
  - destruct (ts p <? c); [exact IH | now constructor].
Qed.

(** On a chronological buffer the prefix trim removes every old point. *)
Lemma popleft_all_recent (c : Z) (l : list MUFData) :
  chronological l -> Forall (fun p => c <= ts p) (popleft_while_old c l).
Proof.
  unfold chronological. induction 1 as [|p l Hs IH Hp]; cbn.
  - constructor.
  - destruct (ts p <? c) eqn:E; [exact IH|].
    apply Z.ltb_ge in E. constructor; [exact E|].
    eapply Forall_impl; [|exact Hp]. cbn. intros q Hq. lia.
Qed.

Lemma popleft_snoc (c : Z) (l : list MUFData) (x : MUFData) :
  exists added : list MUFData,
    popleft_while_old c (l ++ [x]) = popleft_while_old c l ++ added.
Proof.
  induction l as [|p l IH]; cbn.
  - destruct (ts x <? c); [exists [] | exists [x]]; reflexivity.
  - destruct (ts p <? c); [exact IH | exists [x]; reflexivity].
Qed.

Lemma chronological_snoc (l : list MUFData) (x : MUFData) :
  chronological l -> (forall p, In p l -> ts p <= ts x) ->
  chronological (l ++ [x]).
Proof.
  unfold chronological. induction 1 as [|p l Hs IH Hp]; cbn; intros Hx.
  - repeat constructor.
  - constructor.
    + apply IH. intros q Hq. apply Hx. now right.
    + apply Forall_app. split; [exact Hp|].
      constructor; [|constructor]. apply Hx. now left.
Qed.

(** ** The last point *)

Lemma ages_refl (p : MUFData) : ages p p.
Proof. unfold ages, same_values. tauto. Qed.

Lemma ages_all_refl (l : list MUFData) : Forall2 ages l l.
Proof. induction l; constructor; auto using ages_refl. Qed.

Lemma last_point_none (l : list MUFData) : last_point l = None -> l = [].
Proof.
  induction l as [|p l IH]; [reflexivity|]. cbn.
  destruct l as [|q l]; [discriminate|]. intros H. now specialize (IH H).
Qed.

Lemma last_point_set (l : list MUFData) (p q : MUFData) :
  last_point l = Some p -> last_point (set_last_point l q) = Some q.
Proof.
  induction l as [|x l IH]; [discriminate|].
  destruct l as [|y l]; [reflexivity|].
  intros H. change (last_point (x :: set_last_point (y :: l) q) = Some q).
  specialize (IH H). destruct (set_last_point (y :: l) q) eqn:E.
  - destruct l; discriminate.
  - exact IH.
Qed.

Lemma set_last_point_ages (l : list MUFData) (p q : MUFData) :
  last_point l = Some p -> ages p q -> Forall2 ages l (set_last_point l q).
Proof.
  induction l as [|x l IH]; [constructor|].
  destruct l as [|y l].
  - cbn. intros [= ->] H. constructor; [exact H | constructor].
  - intros H Hq. change (Forall2 ages (x :: y :: l)
                            (x :: set_last_point (y :: l) q)).
    constructor; [apply ages_refl | now apply IH].
Qed.

Lemma set_last_point_Forall (P : MUFData -> Prop) (l : list MUFData)
    (q : MUFData) :
  Forall P l -> P q -> Forall P (set_last_point l q).
Proof.
  induction l as [|x l IH]; [constructor|].
  destruct l as [|y l]; intros H Hq.
  - constructor; [exact Hq | constructor].
  - change (Forall P (x :: set_last_point (y :: l) q)).
    inversion H; subst. constructor; [assumption | now apply IH].
Qed.

Lemma last_point_In (l : list MUFData) (p : MUFData) :
  last_point l = Some p -> In p l.
Proof.
  induction l as [|x l IH]; [discriminate|].
  destruct l as [|y l].
  - cbn. intros [= ->]. now left.
  - intros H. right. now apply IH.
Qed.

(** The staleness test is a comparison of microsecond counts. *)
Lemma stale_test (d : Z) :
  Qle_bool (total_seconds d) (inject_Z STALE_THRESHOLD_SECONDS)
  = (d <=? STALE_THRESHOLD_SECONDS * 1000000).
Proof.
  unfold Qle_bool, total_seconds, inject_Z. cbn [Qnum Qden].
  now rewrite Z.mul_1_r.
Qed.

Lemma reread_ages (t : Z) (p : MUFData) : ages p (reread t p).
Proof.
  unfold reread. destruct (Qle_bool _ _); [apply ages_refl|].
  unfold ages, same_values. cbn. tauto.
Qed.

Lemma reread_status (t : Z) (p : MUFData) :
  status (reread t p) = STALE <->
  status p = STALE \/ STALE_THRESHOLD_SECONDS * 1000000 < t - ts p.
Proof.
  unfold reread. rewrite stale_test.
  destruct (t - ts p <=? STALE_THRESHOLD_SECONDS * 1000000) eqn:E.
  - apply Z.leb_le in E. split; [now left | intros [H|H]; [exact H | lia]].
  - apply Z.leb_gt in E. cbn. split; [now right | reflexivity].
Qed.

Lemma get_latest_eq (self : MUFStore) (w : world) :
  get_latest self w =
  match last_point (_buffer self) with
  | None => ((None, self), w)
  | Some p =>
      ((Some (reread (clock w (ticks w)) p),
        {| _buffer := set_last_point (_buffer self)
                        (reread (clock w (ticks w)) p) |}),
       snd (now w))
  end.
Proof.
  unfold get_latest. destruct (last_point (_buffer self)); reflexivity.
Qed.

Lemma add_data_point_eq (self : MUFStore) (r a : option float) (T : Z)
    (w : world) :
  add_data_point self r a T w =
  ({| _buffer :=
        popleft_while_old (cutoff_of (clock w (S (ticks w))))
          (_buffer self
             ++ [new_point r a T (initial_status (clock w (ticks w)) T)]) |},
   snd (now (snd (now w)))).
Proof. reflexivity. Qed.

(** [get_series], one outcome at a time. *)
Lemma get_series_eq (self : MUFStore) (m : Z) (w : world) :
  get_series self m w =
  let t := clock w (ticks w) in
  let kept := filter (fun p => t - timedelta_minutes m <=? ts p)
                (_buffer self) in
  ((if window_in_range t m
    then Ok {| s_timestamps := map ts kept; s_roquetes := map roquetes kept;
               s_arenosillo := map arenosillo kept; s_avg := map avg kept |}
    else Raise OverflowError, self),
   snd (now w)).
Proof.
  unfold get_series, bind, now, ret, window_in_range, timedelta_of_minutes,
    datetime_sub. cbv zeta.
  destruct ((-999999999 <=? m / 1440) && (m / 1440 <=? 999999999));
    cbn [rbind andb]; [|reflexivity].
  destruct ((DATETIME_MIN <=? clock w (ticks w) - timedelta_minutes m) &&
            (clock w (ticks w) - timedelta_minutes m <=? DATETIME_MAX));
    reflexivity.
Qed.

Lemma exec_get_series (self : MUFStore) (m : Z) (w : world) :
  exec (GetSeries m) self w = (self, snd (now w)).
Proof. cbn [exec]. unfold bind. rewrite get_series_eq. reflexivity. Qed.

(** Windows of everyday size are in range at any instant since the epoch. *)
Lemma window_in_range_usual (t m : Z) :
  0 <= t <= DATETIME_MAX -> 0 <= m <= 1000000000 ->
  window_in_range t m = true.
Proof.
  intros Ht Hm. unfold window_in_range, timedelta_minutes, DATETIME_MIN,
    DATETIME_MAX in *.
  assert (H1 : 0 <= m / 1440) by (apply Z.div_pos; lia).
  assert (H2 : m / 1440 <= 999999999) by (apply Z.div_le_upper_bound; lia).
  rewrite !andb_true_iff, !Z.leb_le. lia.
Qed.

(** ** Invariants carried by every call *)

Section Preservation.

Variable P : MUFData -> Prop.
Hypothesis P_status : forall p s, P p -> P (set_status p s).
Hypothesis P_new : forall r a T st, P (new_point r a T st).

Lemma reread_keeps (t : Z) (p : MUFData) : P p -> P (reread t p).
Proof. unfold reread. destruct (Qle_bool _ _); auto. Qed.

Lemma exec_keeps (c : call) (self : MUFStore) (w : world) :
  Forall P (_buffer self) -> Forall P (_buffer (fst (exec c self w))).
Proof.
  intros H. destruct c as [r a T| |m| |]; cbn [exec].
  - rewrite add_data_point_eq. cbn. apply popleft_Forall.
    apply Forall_app. split; [exact H | repeat constructor; apply P_new].
  - unfold bind. rewrite get_latest_eq.
    destruct (last_point (_buffer self)) as [p|] eqn:E; cbn; [|exact H].
    apply set_last_point_Forall; [exact H|]. apply reread_keeps.
    apply last_point_In in E. rewrite Forall_forall in H. now apply H.
  - unfold bind. rewrite get_series_eq. exact H.
  - exact H.
  - constructor.
Qed.

Lemma run_keeps (cs : list call) :
  forall (self : MUFStore) (w : world),
    Forall P (_buffer self) -> Forall P (_buffer (fst (run cs self w))).
Proof.
  induction cs as [|c cs IH]; intros self w H; cbn [run].
  - exact H.
  - unfold bind. pose proof (exec_keeps c self w H) as H1.
    destruct (exec c self w) as [self' w']. now apply IH.
Qed.

End Preservation.

Lemma new_point_average (r a : option float) (T : Z) (st : Status) :
  average_invariant (new_point r a T st).
Proof.
  unfold average_invariant, new_point. cbn. split.
  - destruct r, a; cbn; split; try tauto; try (intros [? ?]; congruence);
      try congruence; intros _; split; congruence.
  - intros x y -> ->. reflexivity.
Qed.

(** C1. Every point the store holds, after any sequence of calls on a
    fresh store, has an average exactly when both station values are
    present, and the average is then [(a + b) / 2]; the point built by an
    append carries [average r a], which is [None] as soon as one value is
    missing. *)
Theorem stored_average_invariant :
  forall (cs : list call) (w : world) (self : MUFStore)
         (r a : option float) (T : Z),
    Forall average_invariant (_buffer (fst (run cs init w))) /\
    (exists st : Status,
        _buffer (fst (add_data_point self r a T w)) =
        popleft_while_old (cutoff_of (clock w (S (ticks w))))
          (_buffer self ++ [new_point r a T st])) /\
    (r = None \/ a = None -> average r a = None) /\
    (forall x y : float,
        r = Some x -> a = Some y -> average r a = Some ((x + y) / 2)%float).
Proof.
  intros cs w self r a T. repeat split.
  - apply run_keeps.
    + intros p s [H1 H2]. split; [exact H1 | exact H2].
    + apply new_point_average.
    + constructor.
  - rewrite add_data_point_eq. eexists. reflexivity.
  - intros [-> | ->]; [reflexivity | now destruct r].
  - intros x y -> ->. reflexivity.
Qed.

(** ** Reading the series *)

Lemma filter_recent (c : Z) (l : list MUFData) :
  Forall (fun t => c <= t) (map ts (filter (fun p => c <=? ts p) l)).
Proof.
  induction l as [|p l IH]; cbn; [constructor|].
  destruct (c <=? ts p) eqn:E; [|exact IH].
  cbn. constructor; [now apply Z.leb_le | exact IH].
Qed.

Lemma filter_chronological (f : MUFData -> bool) (l : list MUFData) :
  chronological l -> StronglySorted Z.le (map ts (filter f l)).
Proof.
  unfold chronological. induction 1 as [|p l Hs IH Hp]; cbn; [constructor|].
  destruct (f p); [|exact IH]. cbn. constructor; [exact IH|].
  rewrite Forall_map. rewrite Forall_forall in *. intros q Hq.
  apply filter_In in Hq. now apply Hp.
Qed.

(** C4 (as the code has it). [get_series] reads the clock once and leaves
    the store as it was.  When [now - window] exists (the window is a
    [timedelta] and the difference a [datetime], as for every window of
    everyday size) it returns the four columns of exactly the buffered
    points whose timestamp is at least [now - window], in buffer order
    (chronological when the buffer is); when the window is no wider than
    the retention window, nothing returned is older than
    [now - WINDOW_MINUTES].  Otherwise it raises [OverflowError]. *)
Theorem get_series_window :
  forall (self : MUFStore) (window_minutes : Z) (w : world),
    let '(outcome, self', w') := get_series self window_minutes w in
    let t := clock w (ticks w) in
    let kept :=
      filter (fun p => t - timedelta_minutes window_minutes <=? ts p)
        (_buffer self) in
    self' = self /\
    w' = snd (now w) /\
    (0 <= t <= DATETIME_MAX -> 0 <= window_minutes <= 1000000000 ->
     window_in_range t window_minutes = true) /\
    match outcome with
    | Ok series =>
        window_in_range t window_minutes = true /\
        s_timestamps series = map ts kept /\
        s_roquetes series = map roquetes kept /\
        s_arenosillo series = map arenosillo kept /\
        s_avg series = map avg kept /\
        Forall (fun x => t - timedelta_minutes window_minutes <= x)
          (s_timestamps series) /\
        (window_minutes <= WINDOW_MINUTES ->
         Forall (fun x => cutoff_of t <= x) (s_timestamps series)) /\
        (chronological (_buffer self) ->
         StronglySorted Z.le (s_timestamps series))
    | Raise e =>
        e = OverflowError /\ window_in_range t window_minutes = false
    end.
Proof.
  intros self m w. rewrite get_series_eq. cbv zeta.
  split; [reflexivity|]. split; [reflexivity|].
  split; [apply window_in_range_usual|].
  destruct (window_in_range (clock w (ticks w)) m); [|split; reflexivity].
  cbn [s_timestamps s_roquetes s_arenosillo s_avg].
  repeat split; try reflexivity.
  - apply filter_recent.
  - intros Hm. eapply Forall_impl; [|apply filter_recent].
    cbn. unfold cutoff_of, timedelta_minutes, WINDOW_MINUTES in *. lia.
  - apply filter_chronological.
Qed.

(** C4, the claim as stated fails: a point appended at instant [t0] is
    still buffered 90 minutes later (nothing was appended since), and a
    120-minute window returns it although it is older than
    [now - WINDOW_MINUTES].  And a window of [10^10] minutes returns
    nothing at all: the cutoff would fall before year 1, and the call
    raises [OverflowError]. *)
Example get_series_returns_unevicted_point :
  let w := clock_world [t0; t0; t0 + 90 * minute] in
  let r := add_data_point init (Some 10%float) (Some 20%float) t0 w in
  let t := clock (snd r) (ticks (snd r)) in
  fst (fst (get_series (fst r) 120 (snd r)))
  = Ok {| s_timestamps := [t0]; s_roquetes := [Some 10%float];
          s_arenosillo := [Some 20%float]; s_avg := [Some 15%float] |} /\
  t = t0 + 90 * minute /\
  (t0 <? t - timedelta_minutes WINDOW_MINUTES) = true /\
  fst (fst (get_series (fst r) 10000000000 (snd r))) = Raise OverflowError.
Proof. vm_compute. repeat split. Qed.

(** ** Eviction *)

(** On a chronological buffer the prefix trim is a filter. *)
Lemma popleft_is_filter (c : Z) (l : list MUFData) :
  chronological l ->
  popleft_while_old c l = filter (fun p => c <=? ts p) l.
Proof.
  unfold chronological. induction 1 as [|p l Hs IH Hp]; cbn; [reflexivity|].
  destruct (ts p <? c) eqn:E.
  - apply Z.ltb_lt in E. replace (c <=? ts p) with false; [exact IH|].
    symmetry. apply Z.leb_gt. exact E.
  - apply Z.ltb_ge in E. replace (c <=? ts p) with true.
    + f_equal. symmetry. apply forallb_filter_id. apply forallb_forall.
      intros q Hq. rewrite Forall_forall in Hp. specialize (Hp q Hq).
      apply Z.leb_le. lia.
    + symmetry. now apply Z.leb_le.
Qed.

(** C5 (as the code has it). On a chronological buffer, appending a point
    whose timestamp [T] is not earlier than the buffered ones leaves exactly
    the points, old and new, that are no older than [t - WINDOW_MINUTES],
    where [t] is the clock reading of the eviction step: the buffer stays
    chronological, no point older than that cutoff is in it, in the size or
    in a later series, and when [T <= t] this covers every point older than
    [T - WINDOW_MINUTES]; [clear] leaves an empty buffer. *)
Theorem append_evicts_by_clock :
  forall (self : MUFStore) (r a : option float) (T : Z) (w : world),
    chronological (_buffer self) ->
    (forall p, In p (_buffer self) -> ts p <= T) ->
    let self' := fst (add_data_point self r a T w) in
    let t := clock w (S (ticks w)) in
    let st := initial_status (clock w (ticks w)) T in
    _buffer self' =
      filter (fun p => cutoff_of t <=? ts p)
        (_buffer self ++ [new_point r a T st]) /\
    chronological (_buffer self') /\
    Forall (fun p => cutoff_of t <= ts p) (_buffer self') /\
    (forall p, In p (_buffer self') -> ts p < cutoff_of t -> False) /\
    (T <= t ->
     forall p, In p (_buffer self') ->
               ts p < T - timedelta_minutes WINDOW_MINUTES -> False) /\
    get_window_size self' =
      List.length (filter (fun p => cutoff_of t <=? ts p)
                     (_buffer self ++ [new_point r a T st])) /\
    (forall (m : Z) (w2 : world),
        match fst (fst (get_series self' m w2)) with
        | Ok series =>
            Forall (fun x => cutoff_of t <= x) (s_timestamps series)
        | Raise e => e = OverflowError
        end) /\
    _buffer (clear self') = [].
Proof.
  intros self r a T w Hc HT self' t st.
  assert (Hs : chronological
                 (_buffer self ++ [new_point r a T st])).
  { apply chronological_snoc; [exact Hc | exact HT]. }
  assert (Hb : _buffer self' =
               popleft_while_old (cutoff_of t)
                 (_buffer self ++ [new_point r a T st])).
  { unfold self'. rewrite add_data_point_eq. reflexivity. }
  assert (Hall : Forall (fun p => cutoff_of t <= ts p) (_buffer self')).
  { rewrite Hb. now apply popleft_all_recent. }
  assert (Hno : forall p, In p (_buffer self') -> ts p < cutoff_of t -> False).
  { intros p Hp Hlt. rewrite Forall_forall in Hall.
    specialize (Hall p Hp). lia. }
  repeat split.
  - rewrite Hb. now apply popleft_is_filter.
  - rewrite Hb. now apply popleft_chronological.
  - exact Hall.
  - exact Hno.
  - intros Hle p Hp Hlt. apply (Hno p Hp). unfold cutoff_of. lia.
  - unfold get_window_size. rewrite Hb.
    now rewrite popleft_is_filter.
  - intros m w2. rewrite get_series_eq. cbv zeta. cbn [fst].
    destruct (window_in_range _ _); [|reflexivity].
    cbn [s_timestamps]. rewrite Forall_map.
    rewrite Forall_forall in *. intros p Hp.
    apply filter_In in Hp. now apply Hall.
Qed.

(** An old point is evicted by the next append: the buffer holds the point
    stamped [t0]; 90 minutes later a point stamped at that instant arrives. *)
Lemma append_evicts_by_clock_witness :
  let self := {| _buffer := [new_point (Some 10%float) (Some 20%float) t0 OK] |} in
  let T := t0 + 90 * minute in
  let w := clock_world [T; T] in
  _buffer (fst (add_data_point self None (Some 5%float) T w)) =
  filter (fun p => cutoff_of T <=? ts p)
    (_buffer self ++ [new_point None (Some 5%float) T OK]).
Proof.
  refine (proj1 (append_evicts_by_clock
                   {| _buffer := [new_point (Some 10%float) (Some 20%float) t0 OK] |}
                   None (Some 5%float) (t0 + 90 * minute)
                   (clock_world [t0 + 90 * minute; t0 + 90 * minute]) _ _)).
  - repeat constructor.
  - intros p [<- | []]. vm_compute. discriminate.
Defined.

(** C5, the claim as stated fails: the cutoff follows the clock, not [T].
    With the point stamped [t0] in the buffer and the clock 10 minutes
    later, an append stamped [T], 100 minutes after [t0], keeps the old
    point although it is older than [T - WINDOW_MINUTES]: the size is 2 and
    a later series still lists it.  And since only the front of the buffer
    is trimmed, a point appended out of order, two hours older than the
    clock, stays behind a recent one. *)
Example append_keeps_point_older_than_T :
  let w := clock_world [t0; t0; t0 + 10 * minute; t0 + 10 * minute] in
  let r1 := add_data_point init (Some 10%float) (Some 20%float) t0 w in
  let T := t0 + 100 * minute in
  let r2 := add_data_point (fst r1) (Some 11%float) (Some 21%float) T (snd r1) in
  let t := t0 + 120 * minute in
  let w' := clock_world [t; t; t; t] in
  let r3 := add_data_point init (Some 10%float) (Some 20%float) t w' in
  let r4 := add_data_point (fst r3) (Some 11%float) (Some 21%float) t0 (snd r3) in
  (get_window_size (fst r2) = 2%nat /\
   fst (fst (get_series (fst r2) WINDOW_MINUTES (snd r2)))
     = Ok {| s_timestamps := [t0; T];
             s_roquetes := [Some 10%float; Some 11%float];
             s_arenosillo := [Some 20%float; Some 21%float];
             s_avg := [Some 15%float; Some 16%float] |} /\
   (t0 <? T - timedelta_minutes WINDOW_MINUTES) = true) /\
  (map ts (_buffer (fst r4)) = [t; t0] /\
   (t0 <? t - timedelta_minutes WINDOW_MINUTES) = true).
Proof. vm_compute. repeat split. Qed.

(** ** Reading the latest point *)

Lemma popleft_snoc_cases (c : Z) (l : list MUFData) (x : MUFData) :
  exists added : list MUFData,
    popleft_while_old c (l ++ [x]) = popleft_while_old c l ++ added /\
    (added = [] \/ added = [x]).
Proof.
  induction l as [|p l IH]; cbn.
  - destruct (ts x <? c); [exists [] | exists [x]]; auto.
  - destruct (ts p <? c); [exact IH | exists [x]; auto].
Qed.

Lemma exec_evolves (c : call) (self : MUFStore) (w : world) :
  evolves c (_buffer self) (_buffer (fst (exec c self w))).
Proof.
  unfold evolves. destruct c as [r a T| |m| |]; cbn [exec].
  - rewrite add_data_point_eq. cbn [fst _buffer].
    set (c := cutoff_of _). set (x := new_point _ _ _ _).
    destruct (popleft_suffix c (_buffer self)) as (d & Hd & _).
    destruct (popleft_snoc_cases c (_buffer self) x) as (added & Ha & Hadd).
    exists d, (popleft_while_old c (_buffer self)),
      (popleft_while_old c (_buffer self)), added.
    split; [exact Hd|]. split; [exact Ha|].
    split; [apply ages_all_refl|]. split; [reflexivity|].
    destruct Hadd as [-> | ->]; [now left|].
    right. eexists. reflexivity.
  - unfold bind. rewrite get_latest_eq.
    destruct (last_point (_buffer self)) as [p|] eqn:E; cbn.
    + exists [], (_buffer self),
        (set_last_point (_buffer self) (reread (clock w (ticks w)) p)), [].
      split; [reflexivity|]. split; [now rewrite app_nil_r|].
      split; [|split; reflexivity].
      eapply set_last_point_ages; [exact E | apply reread_ages].
    + exists [], (_buffer self), (_buffer self), [].
      split; [reflexivity|]. split; [now rewrite app_nil_r|].
      split; [apply ages_all_refl | split; reflexivity].
  - unfold bind. rewrite get_series_eq. cbn [fst snd].
    exists [], (_buffer self), (_buffer self), [].
    split; [reflexivity|]. split; [now rewrite app_nil_r|].
    split; [apply ages_all_refl | repeat split].
  - cbn. exists [], (_buffer self), (_buffer self), [].
    split; [reflexivity|]. split; [now rewrite app_nil_r|].
    split; [apply ages_all_refl | repeat split].
  - cbn. exists (_buffer self), [], [], [].
    split; [now rewrite app_nil_r|]. split; [reflexivity|].
    split; [constructor | split; reflexivity].
Qed.

Lemma ages_trans (p q r : MUFData) : ages p q -> ages q r -> ages p r.
Proof.
  unfold ages, same_values.
  intros [(A & B & C & D) E] [(A' & B' & C' & D') E'].
  repeat split; try congruence. auto.
Qed.

Lemma ages_all_trans (l1 : list MUFData) :
  forall l2 l3 : list MUFData,
    Forall2 ages l1 l2 -> Forall2 ages l2 l3 -> Forall2 ages l1 l3.
Proof.
  induction l1 as [|p l1 IH]; intros l2 l3 H1 H2;
    inversion H1; subst; inversion H2; subst; constructor.
  - eapply ages_trans; eassumption.
  - eapply IH; eassumption.
Qed.

Lemma exec_read_ages (c : call) (self : MUFStore) (w : world) :
  reads c = true ->
  Forall2 ages (_buffer self) (_buffer (fst (exec c self w))).
Proof.
  destruct c as [r a T| |m| |]; try discriminate; intros _; cbn [exec].
  - unfold bind. rewrite get_latest_eq.
    destruct (last_point (_buffer self)) as [p|] eqn:E; cbn.
    + eapply set_last_point_ages; [exact E | apply reread_ages].
    + apply ages_all_refl.
  - unfold bind. rewrite get_series_eq. apply ages_all_refl.
  - apply ages_all_refl.
Qed.

Lemma run_reads_age (cs : list call) :
  forall (self : MUFStore) (w : world),
    forallb reads cs = true ->
    Forall2 ages (_buffer self) (_buffer (fst (run cs self w))).
Proof.
  induction cs as [|c cs IH]; intros self w H; cbn [run].
  - apply ages_all_refl.
  - cbn [forallb] in H. apply andb_prop in H. destruct H as [Hc Hcs].
    unfold bind. pose proof (exec_read_ages c self w Hc) as H1.
    destruct (exec c self w) as [s1 w1]. cbn [fst] in H1.
    eapply ages_all_trans; [exact H1 | now apply IH].
Qed.

(** C6. Two calls of [get_latest] in a row return nothing on an empty
    buffer, and otherwise the last point both times, with the same values;
    only the status may differ, and once stale it stays stale.  The first
    call reports the point stale exactly when it already was or more than
    [STALE_THRESHOLD_SECONDS] have passed since its timestamp.  No call of
    the store ever turns a stale point fresh again: an append leaves the
    points it keeps as they are, [get_latest] only ages them, the other
    calls change none of them; and through any sequence of calls without
    an append or a [clear], every point keeps its values and a stale point
    stays stale. *)
Theorem latest_read_twice :
  forall (self : MUFStore) (w : world),
    let r1 := get_latest self w in
    let r2 := get_latest (snd (fst r1)) (snd r1) in
    match fst (fst r1), fst (fst r2) with
    | None, None => _buffer self = []
    | Some p, Some q =>
        ages p q /\
        exists p0 : MUFData,
          last_point (_buffer self) = Some p0 /\ ages p0 p /\
          (status p = STALE <->
           status p0 = STALE \/
           STALE_THRESHOLD_SECONDS * 1000000 < clock w (ticks w) - ts p0)
    | _, _ => False
    end /\
    (_buffer self = [] -> fst (fst r1) = None) /\
    Forall2 ages (_buffer self) (_buffer (snd (fst r1))) /\
    (forall (c : call) (w0 : world),
        evolves c (_buffer self) (_buffer (fst (exec c self w0)))) /\
    (forall (cs : list call) (w0 : world),
        forallb reads cs = true ->
        Forall2 ages (_buffer self) (_buffer (fst (run cs self w0)))).
Proof.
  intros self w r1 r2. unfold r2, r1. rewrite !get_latest_eq.
  destruct (last_point (_buffer self)) as [p0|] eqn:E; cbn [fst snd _buffer].
  - erewrite last_point_set by exact E. cbn [fst snd].
    split; [split | split; [|split; [|split]]].
    + apply reread_ages.
    + exists p0. split; [reflexivity|]. split; [apply reread_ages|].
      apply reread_status.
    + intros H. rewrite H in E. discriminate.
    + eapply set_last_point_ages; [exact E | apply reread_ages].
    + intros c w0. apply exec_evolves.
    + intros cs w0. apply run_reads_age.
  - rewrite E. split; [|split; [|split; [|split]]].
    + now apply last_point_none.
    + reflexivity.
    + apply ages_all_refl.
    + intros c w0. apply exec_evolves.
    + intros cs w0. apply run_reads_age.
Qed.

End StoreSpec.

(* ================================================================== *)
(** * Binary64 facts behind the tolerance tests

    The primitive operations are related to their specification in
    [SpecFloat] by the axioms of [FloatAxioms]; the lemmas below follow one
    subtraction and one comparison with 0.5 through that specification. *)

Module FloatFacts.
Import Props.

Lemma digits2_bounds (p : positive) :
  2 ^ (Zpos (digits2_pos p) - 1) <= Zpos p < 2 ^ Zpos (digits2_pos p).
Proof.
  induction p as [p IH|p IH|]; cbn [digits2_pos].
  - rewrite Pos2Z.inj_succ, (Pos2Z.inj_xI p).
    replace (Z.succ (Zpos (digits2_pos p)) - 1)
      with (Z.succ (Zpos (digits2_pos p) - 1)) by lia.
    rewrite !Z.pow_succ_r by lia.
    destruct IH as [IH1 IH2]. revert IH1 IH2.
    generalize (2 ^ (Zpos (digits2_pos p) - 1)) (2 ^ Zpos (digits2_pos p)).
    intros; lia.
  - rewrite Pos2Z.inj_succ, (Pos2Z.inj_xO p).
    replace (Z.succ (Zpos (digits2_pos p)) - 1)
      with (Z.succ (Zpos (digits2_pos p) - 1)) by lia.
    rewrite !Z.pow_succ_r by lia.
    destruct IH as [IH1 IH2]. revert IH1 IH2.
    generalize (2 ^ (Zpos (digits2_pos p) - 1)) (2 ^ Zpos (digits2_pos p)).
    intros; lia.
  - cbn. lia.
Qed.

Lemma digits2_unique (p : positive) (D : Z) :
  2 ^ (D - 1) <= Zpos p < 2 ^ D -> Zpos (digits2_pos p) = D.
Proof.
  intros [Hlo Hhi]. destruct (digits2_bounds p) as [Glo Ghi].
  assert (0 < D).
  { destruct (Z.lt_ge_cases 0 D) as [|Hn]; [assumption|].
    assert (2 ^ D <= 1).
    { destruct (Z.eq_dec D 0) as [->|]; [cbn; lia|].
      rewrite Z.pow_neg_r by lia. lia. }
    lia. }
  assert (Zpos (digits2_pos p) - 1 < D).
  { apply (Z.pow_lt_mono_r_iff 2); lia. }
  assert (D - 1 < Zpos (digits2_pos p)).
  { apply (Z.pow_lt_mono_r_iff 2); lia. }
  lia.
Qed.

Lemma shr_1_m (mrs : shr_record) :
  0 <= shr_m mrs -> shr_m (shr_1 mrs) = shr_m mrs / 2.
Proof.
  destruct mrs as [m r s]. cbn [shr_m]. intros Hm.
  destruct m as [|p|p]; [reflexivity| |lia].
  destruct p as [p|p|]; cbn [shr_1 shr_m].
  - rewrite (Pos2Z.inj_xI p). apply Z.div_unique with 1; lia.
  - rewrite (Pos2Z.inj_xO p). apply Z.div_unique with 0; lia.
  - reflexivity.
Qed.

Lemma iter_shr_m (n : positive) :
  forall mrs : shr_record,
    0 <= shr_m mrs ->
    shr_m (iter_pos shr_1 n mrs) = shr_m mrs / 2 ^ Zpos n.
Proof.
  induction n as [n IH|n IH|]; intros mrs Hm; cbn [iter_pos].
  - assert (H1 : 0 <= shr_m (shr_1 mrs))
      by (rewrite shr_1_m by assumption; apply Z.div_pos; lia).
    assert (H2 : 0 <= shr_m (iter_pos shr_1 n (shr_1 mrs)))
      by (rewrite IH by assumption; apply Z.div_pos; lia).
    rewrite IH, IH, shr_1_m by assumption.
    rewrite !Z.div_div by lia. f_equal.
    rewrite (Pos2Z.inj_xI n).
    replace (2 * Zpos n + 1) with (1 + Zpos n + Zpos n) by lia.
    rewrite !Z.pow_add_r by lia. change (2 ^ 1) with 2. ring.
  - assert (H2 : 0 <= shr_m (iter_pos shr_1 n mrs))
      by (rewrite IH by assumption; apply Z.div_pos; lia).
    rewrite IH, IH by assumption.
    rewrite !Z.div_div by lia. f_equal.
    rewrite (Pos2Z.inj_xO n).
    replace (2 * Zpos n) with (Zpos n + Zpos n) by lia.
    rewrite !Z.pow_add_r by lia. ring.
  - now apply shr_1_m.
Qed.

Lemma shr_spec (mrs : shr_record) (e n : Z) :
  0 <= n -> 0 <= shr_m mrs ->
  shr_m (fst (shr mrs e n)) = shr_m mrs / 2 ^ n /\
  snd (shr mrs e n) = e + n.
Proof.
  intros Hn Hm. destruct n as [|p|p]; cbn [shr fst snd]; [| |lia].
  - rewrite Z.div_1_r. split; [reflexivity | lia].
  - split; [now apply iter_shr_m | reflexivity].
Qed.

Lemma shr_record_of_loc_m (m : Z) (l : location) :
  shr_m (shr_record_of_loc m l) = m.
Proof. destruct l as [|[]]; reflexivity. Qed.

Lemma round_nearest_even_bounds (m : Z) (l : location) :
  m <= round_nearest_even m l <= m + 1.
Proof.
  destruct l as [|[]]; cbn [round_nearest_even]; try lia.
  destruct (Z.even m); lia.
Qed.

Lemma fexp_normal (x : Z) : -53 <= x - 53 -> fexp prec emax x = x - 53.
Proof.
  intros H. unfold fexp, emin, prec, emax. apply Z.max_l. lia.
Qed.

Lemma ltb_half_finite (s : bool) (q : positive) (e : Z) :
  -53 <= e -> 2 ^ 52 <= Zpos q ->
  SFltb (SFabs (S754_finite s q e)) half = false.
Proof.
  intros He Hq. unfold SFltb, SFabs, half, SFcompare.
  destruct (Z.compare_spec e (-53)) as [->|Hlt|Hgt]; [|lia|reflexivity].
  destruct (Pos.compare_cont Eq q 4503599627370496) eqn:E; try reflexivity.
  assert (Hlt : (q < 4503599627370496)%positive) by exact E.
  apply Pos2Z.pos_lt_pos in Hlt.
  assert (Hc : 2 ^ 52 = 4503599627370496) by reflexivity.
  rewrite Hc in Hq. lia.
Qed.

(** Rounding a mantissa of at least 53 bits whose value is at least one
    half gives at least one half. *)
Lemma binary_round_aux_ge_half (s : bool) (m : positive) (e : Z)
    (l : location) :
  53 <= Zpos (digits2_pos m) -> 0 <= Zpos (digits2_pos m) + e ->
  SFltb (SFabs (binary_round_aux prec emax s (Zpos m) e l)) half = false.
Proof.
  set (D := Zpos (digits2_pos m)). intros HD He.
  unfold binary_round_aux, shr_fexp. cbn [Zdigits2]. fold D.
  rewrite (fexp_normal (D + e)) by lia.
  destruct (shr_spec (shr_record_of_loc (Zpos m) l) e (D + e - 53 - e))
    as [Hm1 He1]; [lia | rewrite shr_record_of_loc_m; lia |].
  destruct (shr (shr_record_of_loc (Zpos m) l) e (D + e - 53 - e))
    as [mrs' e']. cbn [fst snd] in Hm1, He1.
  rewrite shr_record_of_loc_m in Hm1.
  replace (D + e - 53 - e) with (D - 53) in Hm1 by lia.
  assert (Hb1 : 2 ^ 52 <= shr_m mrs' < 2 ^ 53).
  { rewrite Hm1. destruct (digits2_bounds m) as [Hlo Hhi]. fold D in Hlo, Hhi.
    assert (Hp : 0 < 2 ^ (D - 53)) by (apply Z.pow_pos_nonneg; lia).
    split.
    - apply Z.div_le_lower_bound; [exact Hp|].
      rewrite <- Z.pow_add_r by lia.
      replace (D - 53 + 52) with (D - 1) by lia. exact Hlo.
    - apply Z.div_lt_upper_bound; [exact Hp|].
      rewrite <- Z.pow_add_r by lia.
      replace (D - 53 + 53) with D by lia. exact Hhi. }
  pose proof (round_nearest_even_bounds (shr_m mrs') (loc_of_shr_record mrs'))
    as Hb2.
  set (m2 := round_nearest_even (shr_m mrs') (loc_of_shr_record mrs')) in *.
  assert (Hm2 : 2 ^ 52 <= m2 <= 2 ^ 53) by lia.
  destruct m2 as [|q|q] eqn:Eq2;
    [change (2 ^ 52) with 4503599627370496 in Hm2; lia | |
     change (2 ^ 52) with 4503599627370496 in Hm2; lia].
  cbn [Zdigits2]. set (D2 := Zpos (digits2_pos q)).
  assert (HD2 : (D2 = 53 /\ Zpos q < 2 ^ 53) \/ (D2 = 54 /\ Zpos q = 2 ^ 53)).
  { destruct (Z.eq_dec (Zpos q) (2 ^ 53)) as [E|N].
    - right. split; [|exact E]. apply digits2_unique.
      rewrite E. change (54 - 1) with 53. split; [lia|].
      apply Z.pow_lt_mono_r; lia.
    - left. split; [|lia]. apply digits2_unique.
      change (53 - 1) with 52. lia. }
  assert (He' : e' = D + e - 53) by lia. clear He1. subst e'.
  rewrite (fexp_normal (D2 + (D + e - 53))) by lia.
  destruct (shr_spec (shr_record_of_loc (Zpos q) loc_Exact) (D + e - 53)
              (D2 + (D + e - 53) - 53 - (D + e - 53)))
    as [Hm3 He3]; [lia | cbn; lia |].
  destruct (shr (shr_record_of_loc (Zpos q) loc_Exact) (D + e - 53)
              (D2 + (D + e - 53) - 53 - (D + e - 53)))
    as [mrs'' e'']. cbn [fst snd] in Hm3, He3.
  cbn [shr_record_of_loc shr_m] in Hm3.
  replace (D2 + (D + e - 53) - 53 - (D + e - 53)) with (D2 - 53) in Hm3 by lia.
  assert (Hb3 : 2 ^ 52 <= shr_m mrs'').
  { rewrite Hm3. destruct HD2 as [[-> Hq]|[-> Hq]].
    - change (53 - 53) with 0. rewrite Z.pow_0_r, Z.div_1_r. lia.
    - rewrite Hq. change (54 - 53) with 1.
      change (2 ^ 53 / 2 ^ 1) with (2 ^ 52). lia. }
  destruct (shr_m mrs'') as [|q3|q3];
    [change (2 ^ 52) with 4503599627370496 in Hb3; lia | |
     change (2 ^ 52) with 4503599627370496 in Hb3; lia].
  destruct (e'' <=? emax - prec); [|reflexivity].
  apply ltb_half_finite; [|exact Hb3]. lia.
Qed.

Lemma iter_xO (m d : positive) :
  Zpos (Pos.iter xO m d) = Zpos m * 2 ^ Zpos d.
Proof.
  induction d as [|d IH] using Pos.peano_ind.
  - cbn [Pos.iter]. rewrite (Pos2Z.inj_xO m). change (2 ^ 1) with 2. ring.
  - rewrite Pos.iter_succ, (Pos2Z.inj_xO (Pos.iter xO m d)), IH.
    rewrite Pos2Z.inj_succ, Z.pow_succ_r by lia. ring.
Qed.

Lemma shl_align_val (m : positive) (e e' : Z) :
  e' <= e ->
  Zpos (fst (shl_align m e e')) = Zpos m * 2 ^ (e - e') /\
  snd (shl_align m e e') = e'.
Proof.
  intros H. unfold shl_align. destruct (e' - e) as [|d|d] eqn:E; [|lia|].
  - cbn [fst snd]. replace (e - e') with 0 by lia.
    rewrite Z.pow_0_r. split; lia.
  - cbn [fst snd]. rewrite iter_xO. replace (e - e') with (Zpos d) by lia.
    split; reflexivity.
Qed.

Lemma binary_round_ge_half (s : bool) (p : positive) (e : Z) :
  e <= -1 -> 2 ^ (-1 - e) <= Zpos p ->
  SFltb (SFabs (binary_round prec emax s p e)) half = false.
Proof.
  intros He Hp. unfold binary_round.
  destruct (digits2_bounds p) as [Hlo Hhi].
  set (d := Zpos (digits2_pos p)) in *.
  assert (Hd : 0 <= d + e).
  { assert (-1 - e < d) by (apply (Z.pow_lt_mono_r_iff 2); lia). lia. }
  rewrite (fexp_normal (d + e)) by lia.
  destruct (Z.le_gt_cases (d + e - 53) e) as [Hle|Hgt].
  - destruct (shl_align_val p e (d + e - 53) Hle) as [Hv Hs].
    destruct (shl_align p e (d + e - 53)) as [mz ez].
    cbn [fst snd] in Hv, Hs. subst ez.
    replace (e - (d + e - 53)) with (53 - d) in Hv by lia.
    assert (Hdg : Zpos (digits2_pos mz) = 53).
    { apply digits2_unique. rewrite Hv. change (53 - 1) with 52.
      assert (Hk : 0 < 2 ^ (53 - d)) by (apply Z.pow_pos_nonneg; lia).
      replace (2 ^ 52) with (2 ^ (d - 1) * 2 ^ (53 - d))
        by (rewrite <- Z.pow_add_r by lia; f_equal; lia).
      replace (2 ^ 53) with (2 ^ d * 2 ^ (53 - d))
        by (rewrite <- Z.pow_add_r by lia; f_equal; lia).
      split.
      + apply Z.mul_le_mono_nonneg_r; lia.
      + apply Z.mul_lt_mono_pos_r; lia. }
    apply binary_round_aux_ge_half; rewrite Hdg; lia.
  - assert (Hs : shl_align p e (d + e - 53) = (p, e)).
    { unfold shl_align. destruct (d + e - 53 - e) eqn:E; try reflexivity. lia. }
    rewrite Hs. apply binary_round_aux_ge_half; fold d; lia.
Qed.

(** The rounded value of [M * 2^e] is at least one half in magnitude as
    soon as [M * 2^e] is. *)
Lemma binary_normalize_ge_half (M e : Z) :
  e <= -1 -> 2 ^ (-1 - e) <= Z.abs M ->
  SFltb (SFabs (binary_normalize prec emax M e false)) half = false.
Proof.
  intros He HM.
  assert (Hpos : 0 < 2 ^ (-1 - e)) by (apply Z.pow_pos_nonneg; lia).
  destruct M as [|p|p]; cbn [binary_normalize Z.abs] in *.
  - lia.
  - now apply binary_round_ge_half.
  - now apply binary_round_ge_half.
Qed.

(** Two constants of the same binade that are more than one unit apart
    cannot both be within one half of the same number. *)
Lemma sfsub_exclusive (x : spec_float) (a b : positive) :
  2 ^ 47 <= Zpos a - Zpos b ->
  SFltb (SFabs (SFsub prec emax x (S754_finite false a (-47)))) half = true ->
  SFltb (SFabs (SFsub prec emax x (S754_finite false b (-47)))) half = false.
Proof.
  intros Hab. destruct x as [s|s| |s m e].
  - intros H. discriminate H.
  - intros H. discriminate H.
  - intros H. discriminate H.
  - cbn [SFsub]. set (ez := Z.min e (-47)).
    assert (Hez1 : ez <= e) by apply Z.le_min_l.
    assert (Hez2 : ez <= -47) by apply Z.le_min_r.
    destruct (shl_align_val m e ez Hez1) as [Hx _].
    destruct (shl_align_val a (-47) ez Hez2) as [Ha _].
    destruct (shl_align_val b (-47) ez Hez2) as [Hb _].
    cbn [cond_Zopp]. rewrite Hx, Ha, Hb.
    set (K := 2 ^ (-47 - ez)). set (X := cond_Zopp s (Zpos m * 2 ^ (e - ez))).
    assert (HK : 0 < K) by (apply Z.pow_pos_nonneg; lia).
    assert (Hh : 2 ^ (-1 - ez) = 2 ^ 46 * K).
    { unfold K. rewrite <- Z.pow_add_r by lia. f_equal. lia. }
    intros HA.
    assert (HlA : Z.abs (X - Zpos a * K) < 2 ^ 46 * K).
    { destruct (Z.lt_ge_cases (Z.abs (X - Zpos a * K)) (2 ^ 46 * K))
        as [|Hge]; [assumption|].
      rewrite binary_normalize_ge_half in HA; [discriminate | lia | lia]. }
    apply binary_normalize_ge_half; [lia|]. rewrite Hh.
    assert (Hd : 2 ^ 47 * K <= (Zpos a - Zpos b) * K)
      by (apply Z.mul_le_mono_nonneg_r; lia).
    assert (H47 : 2 ^ 47 * K = 2 * (2 ^ 46 * K))
      by (change (2 ^ 47) with (2 * 2 ^ 46); ring).
    revert HlA Hd H47. generalize (2 ^ 46 * K) (2 ^ 47 * K).
    intros h h2 HlA Hd H47.
    replace (X - Zpos b * K)
      with (X - Zpos a * K + (Zpos a - Zpos b) * K) by ring.
    revert HlA Hd. generalize (X - Zpos a * K) ((Zpos a - Zpos b) * K).
    intros; lia.
Qed.

(** A latitude within the tolerance of 40.8 is not within that of 37.1. *)
Lemma latitude_exclusive (lat : float) :
  (abs (lat - 40.8) <? 0.5)%float = true ->
  (abs (lat - 37.1) <? 0.5)%float = false.
Proof.
  rewrite !ltb_spec, !abs_spec, !sub_spec.
  change (Prim2SF 0.5%float) with half.
  change (Prim2SF 40.8%float) with (S754_finite false 5742089524897382 (-47)).
  change (Prim2SF 37.1%float) with (S754_finite false 5221360817982669 (-47)).
  apply sfsub_exclusive.
  apply Z.leb_le. vm_compute. reflexivity.
Qed.

End FloatFacts.

(* ================================================================== *)
(** * Properties of the fetcher *)

Module FetcherSpec.
Import Py Env Models Fetcher Samples Props.
#[local] Open Scope string_scope.

(** ** The retry loop *)

Lemma after_after (w : world) (n m : nat) (es fs : list event) :
  after (after w n es) m fs = after w (m + n) (es ++ fs)%list.
Proof.
  unfold after. cbn. f_equal; [lia | now rewrite app_assoc].
Qed.

(** One failed pass through the loop body. *)
Lemma attempts_loop_failed (attempt : nat) (rest : list nat) (w : world) :
  transport w (requests w) = Failed ->
  attempts_loop (attempt :: rest) w =
  let delay :=
    nth (Nat.min attempt (List.length RETRY_DELAYS - 1)) RETRY_DELAYS 0%float in
  if (attempt <? MAX_RETRIES - 1)%nat
  then attempts_loop rest
         (after w 1 [Request; Warning (attempt + 1) delay; Sleep delay])
  else (PyNone, after w 1 [Request; Warning (attempt + 1) delay; Error]).
Proof.
  intros H. cbn [attempts_loop]. unfold bind at 1. unfold http_get at 1.
  rewrite H. cbv zeta. unfold bind at 1. unfold emit at 1.
  destruct (attempt <? MAX_RETRIES - 1)%nat.
  - unfold bind, sleep, emit. cbn [trace clock ticks transport requests].
    unfold after. now rewrite <- !app_assoc.
  - unfold bind, emit, ret. cbn [trace clock ticks transport requests].
    unfold after. now rewrite <- !app_assoc.
Qed.

Lemma fetch_exhausted (w : world) :
  transport_down w ->
  fetch_stations_data w = (PyNone, after w 3 exhausted_trace).
Proof.
  intros H.
  unfold fetch_stations_data. change (seq 0 MAX_RETRIES) with [0; 1; 2]%nat.
  rewrite attempts_loop_failed by (apply H; unfold MAX_RETRIES; lia).
  cbv zeta. change (0 <? MAX_RETRIES - 1)%nat with true. cbv iota.
  rewrite attempts_loop_failed
    by (cbn [after transport requests]; apply H; unfold MAX_RETRIES; lia).
  cbv zeta. change (1 <? MAX_RETRIES - 1)%nat with true. cbv iota.
  rewrite attempts_loop_failed
    by (cbn [after transport requests]; apply H; unfold MAX_RETRIES; lia).
  cbv zeta. change (2 <? MAX_RETRIES - 1)%nat with false. cbv iota.
  rewrite !after_after. reflexivity.
Qed.

(** C2 (as the code has it). When the transport fails every attempt, the
    fetch makes exactly three requests, sleeps 0.5 s after the first
    failure and 1 s after the second, logs the third failure with the
    2 s delay it selected but does not wait for it, and returns [None];
    the clock is not read. *)
Theorem fetch_retry_budget :
  forall w : world,
    transport_down w ->
    let r := fetch_stations_data w in
    fst r = PyNone /\
    requests (snd r) = (requests w + 3)%nat /\
    trace (snd r) = (trace w ++ exhausted_trace)%list /\
    count_requests exhausted_trace = 3%nat /\
    sleeps exhausted_trace = [0.5; 1]%float /\
    ticks (snd r) = ticks w.
Proof.
  intros w H r. unfold r. rewrite (fetch_exhausted w H).
  cbn [fst snd after requests trace ticks].
  repeat split. lia.
Qed.

Lemma fetch_retry_budget_witness :
  fst (fetch_stations_data (dead_world t0)) = PyNone /\
  trace (snd (fetch_stations_data (dead_world t0))) = exhausted_trace.
Proof.
  pose proof (fetch_retry_budget (dead_world t0) (fun n _ => eq_refl)) as H.
  cbv zeta in H. split; [exact (proj1 H) | exact (proj1 (proj2 (proj2 H)))].
Defined.

(** C2, the claim as stated fails: on a transport that always fails only
    two delays are waited, 0.5 s and 1 s; no sleep of 2 s takes place. *)
Example fetch_sleeps_twice :
  let w' := snd (fetch_stations_data (dead_world t0)) in
  sleeps (trace w') = [0.5; 1]%float /\
  List.length (sleeps (trace w')) = 2%nat /\
  count_requests (trace w') = 3%nat /\
  existsb (fun d => PrimFloat.eqb d 2%float) (sleeps (trace w')) = false.
Proof. vm_compute. repeat split. Qed.

(** ** The resolver, record by record *)

Lemma identify_eq (d info : dict pyval) (nm : string) :
  get_default d "station" (PyDict []) = PyDict info ->
  get_default info "name" (PyStr "") = PyStr nm ->
  identify d =
  match name_match (lower nm) with
  | Some k => Ok (Some k)
  | None =>
      rbind (py_float (get_default info "latitude" (PyInt 0))) (fun lat =>
      rbind (py_float (get_default info "longitude" (PyInt 0))) (fun lon =>
      Ok (geo_match lat lon)))
  end.
Proof.
  intros Hs Hn. unfold identify. rewrite Hs. cbn [py_get rbind].
  rewrite Hn. cbn [py_lower rbind]. reflexivity.
Qed.


(** C3 (the code departs from the claim). A record whose coordinates are
    not numeric makes [filter_spanish_stations] raise, and the well-formed
    record after it is never processed, although alone it resolves; the
    same happens for a [null] name, a [null] station object and a matched
    station whose [mufd] is not numeric.  The bounding-box test
    [is_spanish_station] answers [False] on the first of these records. *)
Example malformed_record_aborts_batch :
  let w := live_world t0 PyNone in
  let good := record "Ebre" (PyStr "40.8") (PyStr "0.5") (PyFloat 7.5%float) in
  let bad := record "Madrid" (PyStr "n/a") (PyStr "n/a") (PyFloat 5%float) in
  fst (filter_spanish_stations (PyList [bad; good]) w) = Raise ValueError /\
  fst (filter_spanish_stations (PyList [good]) w) =
    Ok [("roquetes",
         {| name := "Ebre"; latitude := 40.8%float; longitude := 0.5%float;
            mufd := Some 7.5%float; timestamp := Some t0 |})] /\
  is_spanish_station bad = Ok false /\
  fst (filter_spanish_stations
         (PyList [PyDict [("station", PyDict [("name", PyNone)])]; good]) w)
    = Raise AttributeError /\
  fst (filter_spanish_stations (PyList [PyDict [("station", PyNone)]; good]) w)
    = Raise AttributeError /\
  fst (filter_spanish_stations
         (PyList [record "Roquetes" (PyFloat 40.8%float) (PyFloat 0.5%float)
                    (PyStr "n/a"); good]) w)
    = Raise ValidationError.
Proof. vm_compute. repeat split. Qed.



(** The two tolerance boxes do not meet. *)
Lemma near_exclusive (lat lon : float) :
  near lat lon 40.8%float 0.5%float = true ->
  near lat lon 37.1%float (-6.7)%float = false.
Proof.
  unfold near. intros H. apply andb_prop in H. destruct H as [H _].
  now rewrite (FloatFacts.latitude_exclusive lat H).
Qed.

(** C8. For a record whose name matches neither station and whose
    coordinates convert to [lat] and [lon], the normalized name is
    [geo_match lat lon], and each station is chosen exactly when both
    distances to its centroid are below 0.5 (the two tests are never both
    true); no station is chosen exactly when both tests fail.
    (37.05, -6.8) gives arenosillo and (0, 0) gives nothing. *)
Theorem geographic_fallback :
  forall (d info : dict pyval) (nm : string) (lat lon : float),
    get_default d "station" (PyDict []) = PyDict info ->
    get_default info "name" (PyStr "") = PyStr nm ->
    name_match (lower nm) = None ->
    py_float (get_default info "latitude" (PyInt 0)) = Ok lat ->
    py_float (get_default info "longitude" (PyInt 0)) = Ok lon ->
    let near_roquetes :=
      ((abs (lat - 40.8) <? 0.5) && (abs (lon - 0.5) <? 0.5))%float in
    let near_arenosillo :=
      ((abs (lat - 37.1) <? 0.5) && (abs (lon - (-6.7)) <? 0.5))%float in
    identify d = Ok (geo_match lat lon) /\
    (geo_match lat lon = Some "roquetes" <-> near_roquetes = true) /\
    (geo_match lat lon = Some "arenosillo" <-> near_arenosillo = true) /\
    (geo_match lat lon = None <->
     near_roquetes = false /\ near_arenosillo = false) /\
    (near_roquetes = true -> near_arenosillo = false) /\
    geo_match 37.05%float (-6.8)%float = Some "arenosillo" /\
    geo_match 0%float 0%float = None.
Proof.
  intros d info nm lat lon Hs Hn Hk Hlat Hlon nr na.
  split.
  { rewrite (identify_eq d info nm Hs Hn). rewrite Hk, Hlat, Hlon.
    reflexivity. }
  assert (Hex : nr = true -> na = false) by apply near_exclusive.
  change (geo_match lat lon)
    with (if nr then Some "roquetes"
          else if na then Some "arenosillo" else None).
  destruct nr, na.
  - specialize (Hex eq_refl). discriminate.
  - repeat split; try discriminate; try reflexivity.
    intros [? _]. discriminate.
  - repeat split; try discriminate; try reflexivity.
    intros [_ ?]. discriminate.
  - repeat split; try discriminate; try reflexivity.
Qed.

Lemma geographic_fallback_witness :
  identify [("station",
             PyDict [("name", PyStr "");
                     ("latitude", PyStr "37.05");
                     ("longitude", PyFloat (-6.8)%float)])]
  = Ok (Some "arenosillo").
Proof.
  refine (proj1 (geographic_fallback
                   [("station",
                     PyDict [("name", PyStr "");
                             ("latitude", PyStr "37.05");
                             ("longitude", PyFloat (-6.8)%float)])]
                   [("name", PyStr ""); ("latitude", PyStr "37.05");
                    ("longitude", PyFloat (-6.8)%float)]
                   "" 37.05%float (-6.8)%float _ _ _ _ _));
    reflexivity.
Defined.

(** The tolerance is strict: a latitude exactly 0.5 away from the
    centroid of roquetes is outside it. *)
Example tolerance_is_strict :
  (abs (41.3 - 40.8) =? 0.5)%float = true /\
  geo_match 41.3%float 0.5%float = None.
Proof. vm_compute. split; reflexivity. Qed.

(** ** The resolver over a whole payload *)

Lemma dict_get_set_same {V : Type} (m : dict V) (k : string) (v : V) :
  dict_get (dict_set m k v) k = Some v.
Proof.
  induction m as [|[k' v'] m IH]; cbn.
  - now rewrite String.eqb_refl.
  - destruct (String.eqb k' k) eqn:E; cbn; rewrite E; [reflexivity | exact IH].
Qed.

Lemma dict_get_set_other {V : Type} (m : dict V) (k k' : string) (v : V) :
  k' <> k -> dict_get (dict_set m k v) k' = dict_get m k'.
Proof.
  intros Hne. induction m as [|[k0 v0] m IH]; cbn.
  - destruct (String.eqb k k') eqn:E; [|reflexivity].
    apply String.eqb_eq in E. congruence.
  - destruct (String.eqb k0 k) eqn:E; cbn.
    + apply String.eqb_eq in E. subst k0.
      destruct (String.eqb k k') eqn:E'; [|reflexivity].
      apply String.eqb_eq in E'. congruence.
    + destruct (String.eqb k0 k'); [reflexivity | exact IH].
Qed.

Lemma dict_set_Forall {V : Type} (P : string * V -> Prop) (m : dict V)
    (k : string) (v : V) :
  Forall P m -> (forall k0, P (k0, v)) -> Forall P (dict_set m k v).
Proof.
  intros H Hv. induction H as [|[k' v'] m Hp Hm IH]; cbn.
  - constructor; [apply Hv | constructor].
  - destruct (String.eqb k' k); constructor; auto.
Qed.

Lemma extends_refl (w : world) : extends w w.
Proof. split; [reflexivity | lia]. Qed.

Lemma extends_trans (w1 w2 w3 : world) :
  extends w1 w2 -> extends w2 w3 -> extends w1 w3.
Proof. intros [H1 H2] [H3 H4]. split; [congruence | lia]. Qed.

Lemma extends_now (w : world) : extends w (snd (now w)).
Proof. split; cbn; [reflexivity | lia]. Qed.

Lemma read_between_now (w0 w : world) :
  extends w0 w -> read_between w0 (snd (now w)) (clock w (ticks w)).
Proof.
  intros [Hc Ht]. exists (ticks w). cbn. split; [lia | now rewrite Hc].
Qed.

Lemma read_between_extends (w0 w w' : world) (t : Z) :
  extends w w' -> read_between w0 w t -> read_between w0 w' t.
Proof.
  intros [_ Ht] (n & Hn & Hc). exists n. split; [lia | exact Hc].
Qed.

Lemma read_between_shift (w0 w w' : world) (t : Z) :
  extends w0 w -> read_between w w' t -> read_between w0 w' t.
Proof.
  intros [Hc Ht] (n & Hn & Hr). exists n. split; [lia | congruence].
Qed.

(** The three ways one pass through the loop body can go. *)
Lemma station_step_cases (spanish_stations : dict StationData)
    (station : pyval) (w : world) :
  (key_of station = Ok None /\
   station_step spanish_stations station w = (Ok spanish_stations, w)) \/
  (exists e : exn,
      key_of station = Raise e /\
      station_step spanish_stations station w = (Raise e, w)) \/
  (exists (d : dict pyval) (k : string),
      station = PyDict d /\ identify d = Ok (Some k) /\
      station_step spanish_stations station w =
      (rbind (station_data d (clock w (ticks w)))
         (fun sd => Ok (dict_set spanish_stations k sd)),
       snd (now w))).
Proof.
  destruct station as [| | | | |l|d]; try (left; split; reflexivity).
  cbn [key_of station_step]. destruct (identify d) as [[k|]|e] eqn:E.
  - right. right. exists d, k.
    split; [reflexivity | split; [exact E | reflexivity]].
  - left. split; reflexivity.
  - right. left. exists e. split; reflexivity.
Qed.

Lemma stations_loop_app (l1 l2 : list pyval) :
  forall (m : dict StationData) (w : world),
    stations_loop m (l1 ++ l2)%list w =
    match stations_loop m l1 w with
    | (Ok m1, w1) => stations_loop m1 l2 w1
    | (Raise e, w1) => (Raise e, w1)
    end.
Proof.
  induction l1 as [|x l1 IH]; intros m w; [reflexivity|].
  cbn [app stations_loop]. unfold bind.
  destruct (station_step m x w) as [[m1|e] w1]; [apply IH | reflexivity].
Qed.

Lemma stations_loop_extends (l : list pyval) :
  forall (m : dict StationData) (w : world),
    extends w (snd (stations_loop m l w)).
Proof.
  induction l as [|x l IH]; intros m w; cbn [stations_loop].
  - apply extends_refl.
  - unfold bind.
    destruct (station_step_cases m x w)
      as [[_ H] | [(e & _ & H) | (d & k & _ & _ & H)]]; rewrite H.
    + apply IH.
    + apply extends_refl.
    + destruct (rbind _ _) as [m1|e].
      * eapply extends_trans; [apply extends_now | apply IH].
      * apply extends_now.
Qed.

(** Records after which the entry of [k] is no longer touched. *)
Lemma stations_loop_other_keys (k : string) (l : list pyval) :
  forall (m m' : dict StationData) (w w' : world),
    stations_loop m l w = (Ok m', w') ->
    (forall q, In q l -> key_of q = Ok (Some k) -> False) ->
    dict_get m' k = dict_get m k.
Proof.
  induction l as [|x l IH]; intros m m' w w' Hrun Hk.
  - cbn in Hrun. now inversion Hrun.
  - cbn [stations_loop] in Hrun. unfold bind in Hrun.
    assert (Hl : forall q, In q l -> key_of q = Ok (Some k) -> False)
      by (intros q Hq; apply Hk; now right).
    destruct (station_step_cases m x w)
      as [[_ H] | [(e & _ & H) | (d & k' & Hx & Hid & H)]];
      rewrite H in Hrun.
    + exact (IH _ _ _ _ Hrun Hl).
    + discriminate.
    + destruct (station_data d (clock w (ticks w))) as [sd|e];
        cbn [rbind] in Hrun; [|discriminate].
      rewrite (IH _ _ _ _ Hrun Hl). apply dict_get_set_other.
      intros ->. apply (Hk x); [now left | subst x; exact Hid].
Qed.

(** C9. When several records of one payload resolve to the same station,
    the entry of that station comes from the last of them: if the record
    [r] resolves to [k] and no record after it does, the result maps [k]
    to the [StationData] built from [r], stamped with a clock reading
    taken during the call. *)
Theorem last_record_wins :
  forall (pre post : list pyval) (r : dict pyval) (k : string)
         (w w' : world) (m : dict StationData),
    filter_spanish_stations (PyList (pre ++ PyDict r :: post)%list) w
      = (Ok m, w') ->
    identify r = Ok (Some k) ->
    (forall q, In q post -> key_of q = Ok (Some k) -> False) ->
    exists (t : Z) (sd : StationData),
      read_between w w' t /\ station_data r t = Ok sd /\
      dict_get m k = Some sd.
Proof.
  intros pre post r k w w' m Hrun Hid Hpost.
  cbn [filter_spanish_stations py_iter] in Hrun.
  rewrite stations_loop_app in Hrun.
  pose proof (stations_loop_extends pre [] w) as Hext.
  destruct (stations_loop [] pre w) as [[m1|e] w1]; [|discriminate].
  cbn [snd] in Hext. cbn [stations_loop] in Hrun. unfold bind in Hrun.
  cbn [station_step] in Hrun. rewrite Hid in Hrun.
  unfold bind, ret in Hrun.
  change (now w1) with (clock w1 (ticks w1), snd (now w1)) in Hrun.
  cbv iota in Hrun.
  destruct (station_data r (clock w1 (ticks w1))) as [sd|e] eqn:Hsd;
    cbn [rbind] in Hrun; [|discriminate].
  exists (clock w1 (ticks w1)), sd. split; [|split].
  - pose proof (stations_loop_extends post (dict_set m1 k sd) (snd (now w1)))
      as Hext2.
    rewrite Hrun in Hext2. cbn [snd] in Hext2.
    eapply read_between_extends; [exact Hext2|].
    now apply read_between_now.
  - exact Hsd.
  - rewrite (stations_loop_other_keys k post _ _ _ _ Hrun Hpost).
    apply dict_get_set_same.
Qed.

Lemma last_record_wins_witness :
  let early := record "Roquetes" (PyStr "40.8") (PyStr "0.5") (PyFloat 7.5%float) in
  let other := record "El Arenosillo" (PyStr "37.1") (PyStr "-6.7") PyNone in
  let w := clock_world [t0; t0 + 1000000; t0 + 2000000] in
  exists (t : Z) (sd : StationData),
    read_between w
      (snd (filter_spanish_stations
              (PyList [early;
                       record "Ebre" (PyInt 41) (PyInt 0) (PyFloat 8.5%float);
                       other]) w)) t /\
    station_data
      [("station", PyDict [("name", PyStr "Ebre"); ("latitude", PyInt 41);
                           ("longitude", PyInt 0)]);
       ("mufd", PyFloat 8.5%float)] t = Ok sd /\
    dict_get
      [("roquetes",
        {| name := "Ebre"; latitude := 41%float; longitude := 0%float;
           mufd := Some 8.5%float; timestamp := Some (t0 + 1000000) |});
       ("arenosillo",
        {| name := "El Arenosillo"; latitude := 37.1%float;
           longitude := (-6.7)%float; mufd := None;
           timestamp := Some (t0 + 2000000) |})] "roquetes" = Some sd.
Proof.
  refine (last_record_wins
            [record "Roquetes" (PyStr "40.8") (PyStr "0.5") (PyFloat 7.5%float)]
            [record "El Arenosillo" (PyStr "37.1") (PyStr "-6.7") PyNone]
            [("station", PyDict [("name", PyStr "Ebre"); ("latitude", PyInt 41);
                                 ("longitude", PyInt 0)]);
             ("mufd", PyFloat 8.5%float)]
            "roquetes" (clock_world [t0; t0 + 1000000; t0 + 2000000]) _ _ _ _ _).
  - vm_compute. reflexivity.
  - reflexivity.
  - intros q [<- | []]. vm_compute. discriminate.
Defined.

(** ** The pipeline *)

Lemma attempts_loop_parsed (attempt : nat) (rest : list nat) (w : world)
    (body : pyval) :
  transport w (requests w) = Parsed body ->
  attempts_loop (attempt :: rest) w = (body, after w 1 [Request]).
Proof.
  intros H. cbn [attempts_loop]. unfold bind, http_get. now rewrite H.
Qed.

Lemma attempts_loop_clock (attempts : list nat) :
  forall w : world,
    clock (snd (attempts_loop attempts w)) = clock w /\
    ticks (snd (attempts_loop attempts w)) = ticks w.
Proof.
  induction attempts as [|attempt rest IH]; intros w.
  - split; reflexivity.
  - destruct (transport w (requests w)) as [body|] eqn:E.
    + rewrite (attempts_loop_parsed _ _ _ _ E). split; reflexivity.
    + rewrite (attempts_loop_failed _ _ _ E). cbv zeta.
      destruct (attempt <? MAX_RETRIES - 1)%nat.
      * match goal with |- context [attempts_loop rest ?w1] =>
          destruct (IH w1) as [Hc Ht] end.
        rewrite Hc, Ht. split; reflexivity.
      * split; reflexivity.
Qed.

Lemma fetch_extends (w : world) :
  extends w (snd (fetch_stations_data w)) /\
  ticks (snd (fetch_stations_data w)) = ticks w.
Proof.
  unfold fetch_stations_data.
  destruct (attempts_loop_clock (seq 0 MAX_RETRIES) w) as [Hc Ht].
  repeat split; [exact Hc | lia | exact Ht].
Qed.

Lemma stamped_extends (w0 w w' : world) (m : dict StationData) :
  extends w w' -> Forall (stamped w0 w) m -> Forall (stamped w0 w') m.
Proof.
  intros He. apply Forall_impl. intros kv (t & Ht & Hr).
  exists t. split; [exact Ht | now apply (read_between_extends w0 w w')].
Qed.

Lemma station_data_timestamp (d : dict pyval) (t : Z) (sd : StationData) :
  station_data d t = Ok sd -> timestamp sd = Some t.
Proof.
  unfold station_data.
  destruct (py_get _ "name" _) as [nm|]; cbn [rbind]; [|discriminate].
  destruct (py_get _ "latitude" _) as [lat_v|]; cbn [rbind]; [|discriminate].
  destruct (py_float lat_v) as [lat|]; cbn [rbind]; [|discriminate].
  destruct (py_get _ "longitude" _) as [lon_v|]; cbn [rbind]; [|discriminate].
  destruct (py_float lon_v) as [lon|]; cbn [rbind]; [|discriminate].
  destruct nm; try discriminate.
  destruct (validate_optional_float _) as [mu|]; cbn [rbind]; [|discriminate].
  intros [= <-]. reflexivity.
Qed.

Lemma station_data_raises (d : dict pyval) (t t' : Z) :
  raises (station_data d t) = raises (station_data d t').
Proof.
  unfold station_data.
  destruct (py_get _ "name" _) as [nm|]; cbn [rbind]; [|reflexivity].
  destruct (py_get _ "latitude" _) as [lat_v|]; cbn [rbind]; [|reflexivity].
  destruct (py_float lat_v) as [lat|]; cbn [rbind]; [|reflexivity].
  destruct (py_get _ "longitude" _) as [lon_v|]; cbn [rbind]; [|reflexivity].
  destruct (py_float lon_v) as [lon|]; cbn [rbind]; [|reflexivity].
  destruct nm; try reflexivity.
  destruct (validate_optional_float _) as [mu|]; reflexivity.
Qed.

Lemma stations_loop_stamped (w0 : world) (l : list pyval) :
  forall (m m' : dict StationData) (w w' : world),
    extends w0 w -> Forall (stamped w0 w) m ->
    stations_loop m l w = (Ok m', w') -> Forall (stamped w0 w') m'.
Proof.
  induction l as [|x l IH]; intros m m' w w' He Hm Hrun.
  - cbn in Hrun. inversion Hrun; subst. exact Hm.
  - cbn [stations_loop] in Hrun. unfold bind in Hrun.
    destruct (station_step_cases m x w)
      as [[_ H] | [(e & _ & H) | (d & k & _ & _ & H)]]; rewrite H in Hrun.
    + exact (IH _ _ _ _ He Hm Hrun).
    + discriminate.
    + destruct (station_data d (clock w (ticks w))) as [sd|e] eqn:Hsd;
        cbn [rbind] in Hrun; [|discriminate].
      refine (IH _ _ _ _ _ _ Hrun).
      * eapply extends_trans; [exact He | apply extends_now].
      * apply dict_set_Forall.
        -- eapply stamped_extends; [apply extends_now | exact Hm].
        -- intros k0. exists (clock w (ticks w)). cbn [snd]. split.
           ++ exact (station_data_timestamp _ _ _ Hsd).
           ++ now apply read_between_now.
Qed.

(** What the loop over the stored timestamps may return. *)
Lemma latest_of_stamped (P : Z -> Prop) (l : list StationData) :
  Forall (fun sd => exists t, timestamp sd = Some t /\ P t) l ->
  match latest_of l with
  | Some t => P t
  | None => l = []
  end.
Proof.
  unfold latest_of.
  set (f := fun latest_timestamp station => _).
  assert (G : forall (l : list StationData) (acc : option Z),
             Forall (fun sd => exists t, timestamp sd = Some t /\ P t) l ->
             match acc with Some t => P t | None => True end ->
             match fold_left f l acc with
             | Some t => P t
             | None => l = [] /\ acc = None
             end).
  { clear l. induction l as [|sd l IH]; intros acc Hl Hacc; cbn [fold_left].
    - destruct acc; [exact Hacc | split; reflexivity].
    - inversion Hl as [|? ? (t & Ht & HP) Hl']; subst.
      specialize (IH (f acc sd) Hl').
      assert (Hf : match f acc sd with Some t0 => P t0 | None => False end).
      { unfold f. rewrite Ht. destruct acc as [a|]; [|exact HP].
        destruct (a <? t)%Z; [exact HP | exact Hacc]. }
      destruct (f acc sd) as [t0|]; [|contradiction].
      specialize (IH Hf). destruct (fold_left f l (Some t0)); [exact IH|].
      destruct IH as [_ IH]. discriminate. }
  intros Hl. specialize (G l None Hl I).
  destruct (fold_left f l None); [exact G | apply G].
Qed.

Lemma stations_loop_total (l : list pyval) :
  forall (m : dict StationData) (w : world),
    forallb resolves l = true ->
    exists m' : dict StationData, fst (stations_loop m l w) = Ok m'.
Proof.
  induction l as [|x l IH]; intros m w Hl; cbn [stations_loop].
  - exists m. reflexivity.
  - cbn [forallb] in Hl. apply andb_prop in Hl. destruct Hl as [Hx Hl].
    unfold bind.
    destruct (station_step_cases m x w)
      as [[_ H] | [(e & Hk & H) | (d & k & Hd & Hid & H)]]; rewrite H.
    + now apply IH.
    + destruct x; try discriminate. cbn in Hk, Hx. rewrite Hk in Hx.
      discriminate.
    + subst x. cbn in Hx. rewrite Hid in Hx.
      rewrite (station_data_raises d 0 (clock w (ticks w))) in Hx.
      destruct (station_data d (clock w (ticks w))); [|discriminate].
      cbn [rbind]. now apply IH.
Qed.

Lemma stations_loop_unmatched (l : list pyval) :
  forall (m : dict StationData) (w : world),
    (forall q, In q l -> key_of q = Ok None) ->
    stations_loop m l w = (Ok m, w).
Proof.
  induction l as [|x l IH]; intros m w Hl; cbn [stations_loop].
  - reflexivity.
  - unfold bind.
    assert (Hx : key_of x = Ok None) by (apply Hl; now left).
    destruct (station_step_cases m x w)
      as [[_ H] | [(e & Hk & H) | (d & k & Hd & Hid & H)]]; rewrite H.
    + apply IH. intros q Hq. apply Hl. now right.
    + congruence.
    + subst x. cbn in Hx. congruence.
Qed.

Lemma filter_extends (payload : pyval) (w : world) :
  extends w (snd (filter_spanish_stations payload w)).
Proof.
  unfold filter_spanish_stations. destruct (py_iter payload) as [l|e].
  - apply stations_loop_extends.
  - apply extends_refl.
Qed.

Lemma filter_stamped (payload : pyval) (w w' : world)
    (m : dict StationData) :
  filter_spanish_stations payload w = (Ok m, w') ->
  Forall (stamped w w') m.
Proof.
  unfold filter_spanish_stations. destruct (py_iter payload) as [l|e].
  - apply stations_loop_stamped; [apply extends_refl | constructor].
  - discriminate.
Qed.

(** [get_muf_data], one effect at a time. *)
Lemma get_muf_data_eq (w : world) :
  get_muf_data w =
  let payload := fst (fetch_stations_data w) in
  let w1 := snd (fetch_stations_data w) in
  if truthy payload then
    match filter_spanish_stations payload w1 with
    | (Raise e, w2) => (Raise e, w2)
    | (Ok spanish_stations, w2) =>
        let r := muf_of spanish_stations "roquetes" in
        let a := muf_of spanish_stations "arenosillo" in
        match latest_of (dict_values spanish_stations) with
        | Some t => (Ok (r, a, Some t), w2)
        | None => (Ok (r, a, Some (clock w2 (ticks w2))), snd (now w2))
        end
    end
  else (Ok (None, None, None), w1).
Proof.
  unfold get_muf_data. unfold bind at 1.
  destruct (fetch_stations_data w) as [payload w1]. cbn [fst snd].
  destruct (truthy payload); cbn [negb]; [|reflexivity].
  unfold bind at 1.
  destruct (filter_spanish_stations payload w1) as [[sp|e] w2];
    [|reflexivity].
  destruct (latest_of (dict_values sp)); reflexivity.
Qed.

Lemma get_muf_data_stamp (w : world) (r a : option float) (ts : option Z) :
  truthy (fst (fetch_stations_data w)) = true ->
  fst (get_muf_data w) = Ok (r, a, ts) ->
  exists t : Z, ts = Some t /\ read_between w (snd (get_muf_data w)) t.
Proof.
  intros Htr. rewrite get_muf_data_eq. cbv zeta. rewrite Htr.
  destruct (fetch_extends w) as [He _].
  set (payload := fst (fetch_stations_data w)) in *.
  set (w1 := snd (fetch_stations_data w)) in *.
  pose proof (filter_extends payload w1) as He2.
  pose proof (filter_stamped payload w1) as Hst.
  destruct (filter_spanish_stations payload w1) as [[sp|e] w2];
    cbn [fst snd] in *; [|discriminate].
  specialize (Hst w2 sp eq_refl).
  assert (Hv : Forall (fun sd => exists t, timestamp sd = Some t
                                            /\ read_between w1 w2 t)
                 (dict_values sp)).
  { unfold dict_values. rewrite Forall_map. exact Hst. }
  apply latest_of_stamped in Hv.
  destruct (latest_of (dict_values sp)) as [t|]; cbn [fst snd].
  - intros [= _ _ <-]. exists t. split; [reflexivity|].
    now apply (read_between_shift w w1 w2).
  - intros [= _ _ <-]. eexists. split; [reflexivity|].
    apply read_between_now. now apply (extends_trans w w1 w2).
Qed.

(** C10. [get_muf_data] returns [(None, None, None)] exactly when the
    fetch gave nothing (every attempt failed) or an empty payload.  For any
    other payload a returned timestamp is never [None]: it is a reading of
    the clock taken during the call, also when no record matched a station
    and both values are [None].  A non-empty list of records the resolver
    goes through without raising always yields such a result. *)
Theorem get_muf_data_timestamp :
  forall w : world,
    let payload := fst (fetch_stations_data w) in
    let res := fst (get_muf_data w) in
    let w' := snd (get_muf_data w) in
    (res = Ok (None, None, None) <-> truthy payload = false) /\
    (transport_down w -> res = Ok (None, None, None)) /\
    (forall (r a : option float) (ts : option Z),
        truthy payload = true -> res = Ok (r, a, ts) ->
        exists t : Z, ts = Some t /\ read_between w w' t) /\
    (forall l : list pyval,
        payload = PyList l -> l <> [] -> forallb resolves l = true ->
        exists (r a : option float) (t : Z),
          res = Ok (r, a, Some t) /\ read_between w w' t) /\
    (forall l : list pyval,
        payload = PyList l -> l <> [] ->
        (forall q, In q l -> key_of q = Ok None) ->
        exists t : Z, res = Ok (None, None, Some t) /\ read_between w w' t).
Proof.
  intros w payload res w'.
  assert (Hstamp : forall r a ts,
             truthy payload = true -> res = Ok (r, a, ts) ->
             exists t : Z, ts = Some t /\ read_between w w' t).
  { intros r a ts. apply get_muf_data_stamp. }
  assert (Hempty : truthy payload = false -> res = Ok (None, None, None)).
  { intros H. unfold res. rewrite get_muf_data_eq. cbv zeta.
    fold payload. rewrite H. reflexivity. }
  split; [|split; [|split; [|split]]].
  - split; [|exact Hempty].
    intros H. destruct (truthy payload) eqn:Htr; [|reflexivity].
    destruct (Hstamp _ _ _ eq_refl H) as (t & Ht & _). discriminate.
  - intros Hdown. apply Hempty. unfold payload.
    rewrite (fetch_exhausted w Hdown). reflexivity.
  - exact Hstamp.
  - intros l Hp Hne Hl.
    assert (Htr : truthy payload = true)
      by (rewrite Hp; destruct l; [contradiction | reflexivity]).
    assert (Hok : exists r a ts, res = Ok (r, a, ts)).
    { unfold res. rewrite get_muf_data_eq. cbv zeta. fold payload.
      rewrite Htr, Hp. cbn [filter_spanish_stations py_iter].
      destruct (stations_loop_total l [] (snd (fetch_stations_data w)) Hl)
        as (m & Hm).
      destruct (stations_loop [] l (snd (fetch_stations_data w)))
        as [[sp|e] w2]; cbn [fst] in Hm; [|discriminate].
      destruct (latest_of (dict_values sp)); cbn [fst];
        do 3 eexists; reflexivity. }
    destruct Hok as (r & a & ts & Hres).
    destruct (Hstamp r a ts Htr Hres) as (t & -> & Hr).
    exists r, a, t. split; assumption.
  - intros l Hp Hne Hl.
    assert (Htr : truthy payload = true)
      by (rewrite Hp; destruct l; [contradiction | reflexivity]).
    assert (Hok : exists ts, res = Ok (None, None, ts)).
    { unfold res. rewrite get_muf_data_eq. cbv zeta. fold payload.
      rewrite Htr, Hp. cbn [filter_spanish_stations py_iter].
      rewrite (stations_loop_unmatched l [] _ Hl). cbn.
      eexists. reflexivity. }
    destruct Hok as (ts & Hres).
    destruct (Hstamp None None ts Htr Hres) as (t & -> & Hr).
    exists t. split; assumption.
Qed.

(** A payload whose only record matches no station: both values are
    [None] and the timestamp is the clock reading of the call, not the
    [timestamp] field of the record. *)
Example get_muf_data_unmatched_payload :
  fst (get_muf_data
         (live_world t0
            (PyList [PyDict [("station",
                              PyDict [("name", PyStr "Madrid");
                                      ("latitude", PyStr "40.4");
                                      ("longitude", PyStr "-3.7")]);
                             ("mufd", PyFloat 9.5%float);
                             ("timestamp", PyStr "1999-01-01T00:00:00")]])))
  = Ok (None, None, Some t0).
Proof. vm_compute. reflexivity. Qed.

End FetcherSpec.

(* ================================================================== *)
(** * Further properties of the store *)

Module StoreMore.
Import Py Env Models Store Samples Props MoreProps StoreSpec.

Lemma popleft_snoc_kept (c : Z) (l : list MUFData) (x : MUFData) :
  c <= ts x ->
  popleft_while_old c (l ++ [x]) = popleft_while_old c l ++ [x].
Proof.
  intros Hx. induction l as [|p l IH]; cbn.
  - destruct (ts x <? c) eqn:E; [apply Z.ltb_lt in E; lia | reflexivity].
  - destruct (ts p <? c); [exact IH | reflexivity].
Qed.

Lemma last_point_snoc (l : list MUFData) (x : MUFData) :
  last_point (l ++ [x]) = Some x.
Proof.
  induction l as [|p l IH]; [reflexivity|].
  cbn [app]. destruct (l ++ [x]) eqn:E.
  - destruct l; discriminate.
  - exact IH.
Qed.

Lemma set_last_point_length (l : list MUFData) (q : MUFData) :
  List.length (set_last_point l q) = List.length l.
Proof.
  induction l as [|p l IH]; [reflexivity|].
  destruct l as [|p' l]; [reflexivity|].
  change (S (List.length (set_last_point (p' :: l) q))
          = S (List.length (p' :: l))).
  now rewrite IH.
Qed.

Lemma popleft_length (c : Z) (l : list MUFData) :
  (List.length (popleft_while_old c l) <= List.length l)%nat.
Proof.
  destruct (popleft_suffix c l) as (d & Hl & _).
  rewrite Hl at 2. rewrite length_app. lia.
Qed.

Lemma popleft_skipn (c : Z) (l : list MUFData) :
  exists k : nat,
    popleft_while_old c l = skipn k l /\
    Forall (fun p => ts p < c) (firstn k l).
Proof.
  destruct (popleft_suffix c l) as (d & Hl & Hd).
  exists (List.length d). split.
  - rewrite Hl at 2. rewrite skipn_app, Nat.sub_diag, skipn_all. reflexivity.
  - rewrite Hl. rewrite firstn_app, Nat.sub_diag, firstn_all.
    cbn. now rewrite app_nil_r.
Qed.

Lemma ages_same_timestamps (l l' : list MUFData) :
  Forall2 ages l l' -> map ts l' = map ts l.
Proof.
  induction 1 as [|x y l l' Hxy Hl IH]; [reflexivity|].
  cbn. f_equal; [|exact IH]. destruct Hxy as [(_ & _ & _ & Ht) _].
  now symmetry.
Qed.

Lemma initial_status_stale (t T : Z) :
  initial_status t T = STALE <->
  STALE_THRESHOLD_SECONDS * 1000000 < t - T.
Proof.
  unfold initial_status. rewrite stale_test.
  destruct (t - T <=? STALE_THRESHOLD_SECONDS * 1000000) eqn:E.
  - apply Z.leb_le in E. split; [discriminate | lia].
  - apply Z.leb_gt in E. split; [intros _; exact E | reflexivity].
Qed.

(** X1. A point appended with a timestamp inside the retention window is
    what [get_latest] returns next, whatever the buffer held and in whatever
    order: the values as given, the average of the two, the timestamp as
    given, and the status stale exactly when more than
    [STALE_THRESHOLD_SECONDS] separate the timestamp from the clock at the
    append or at the read. *)
Theorem append_then_latest :
  forall (self : MUFStore) (r a : option float) (T : Z) (w : world),
    cutoff_of (clock w (S (ticks w))) <= T ->
    let res := add_data_point self r a T w in
    exists p : MUFData,
      fst (fst (get_latest (fst res) (snd res))) = Some p /\
      roquetes p = r /\ arenosillo p = a /\ avg p = average r a /\
      ts p = T /\
      (status p = STALE <->
       STALE_THRESHOLD_SECONDS * 1000000 < clock w (ticks w) - T \/
       STALE_THRESHOLD_SECONDS * 1000000 < clock w (S (S (ticks w))) - T).
Proof.
  intros self r a T w HT res. unfold res. rewrite add_data_point_eq.
  cbn [fst snd]. rewrite get_latest_eq. cbn [_buffer].
  rewrite popleft_snoc_kept by exact HT. rewrite last_point_snoc.
  cbn [fst snd now clock ticks].
  eexists. split; [reflexivity|].
  set (x := new_point r a T (initial_status (clock w (ticks w)) T)).
  pose proof (reread_ages (clock w (S (S (ticks w)))) x) as [(H1 & H2 & H3 & H4) _].
  rewrite <- H1, <- H2, <- H3, <- H4. repeat split.
  - rewrite reread_status. intros [H|H]; [left | right; exact H].
    now apply initial_status_stale in H.
  - rewrite reread_status. intros [H|H]; [left | right; exact H].
    now apply initial_status_stale.
Qed.

Lemma append_then_latest_witness :
  exists p : MUFData,
    fst (fst (get_latest
                (fst (add_data_point init (Some 10%float) None t0
                        (clock_world [t0; t0; t0 + 11 * minute])))
                (snd (add_data_point init (Some 10%float) None t0
                        (clock_world [t0; t0; t0 + 11 * minute])))))
    = Some p /\
    roquetes p = Some 10%float /\ arenosillo p = None /\
    avg p = average (Some 10%float) None /\ ts p = t0 /\
    (status p = STALE <->
     STALE_THRESHOLD_SECONDS * 1000000 < t0 - t0 \/
     STALE_THRESHOLD_SECONDS * 1000000 < t0 + 11 * minute - t0).
Proof.
  refine (append_then_latest init (Some 10%float) None t0
            (clock_world [t0; t0; t0 + 11 * minute]) _).
  vm_compute. discriminate.
Defined.



(** X3. Only an append can change the number of buffered points, and by at
    most one more: [get_latest] and [get_series] keep it (they never evict,
    however old the points are), and [clear] makes it 0. *)
Theorem window_size_changes :
  forall (self : MUFStore) (r a : option float) (T m : Z) (w : world),
    (get_window_size (fst (add_data_point self r a T w))
     <= get_window_size self + 1)%nat /\
    get_window_size (snd (fst (get_latest self w))) = get_window_size self /\
    map ts (_buffer (snd (fst (get_latest self w)))) = map ts (_buffer self) /\
    snd (fst (get_series self m w)) = self /\
    get_window_size (clear self) = 0%nat.
Proof.
  intros self r a T m w. unfold get_window_size. repeat split.
  - rewrite add_data_point_eq. cbn [fst _buffer].
    etransitivity; [apply popleft_length|]. rewrite length_app. cbn. lia.
  - rewrite get_latest_eq. destruct (last_point (_buffer self)); cbn;
      [apply set_last_point_length | reflexivity].
  - rewrite get_latest_eq.
    destruct (last_point (_buffer self)) as [p|] eqn:E; cbn; [|reflexivity].
    apply ages_same_timestamps.
    exact (set_last_point_ages _ _ _ E (reread_ages (clock w (ticks w)) p)).
  - rewrite get_series_eq. reflexivity.
Qed.

(** X4. On a chronological buffer a series is the tail of the buffer: when
    [get_series] returns, the points left out are exactly a prefix of
    points older than [now - window], and the four columns list the
    remaining points in order; it returns exactly when [now - window]
    exists, and raises [OverflowError] otherwise. *)
Theorem series_is_buffer_tail :
  forall (self : MUFStore) (m : Z) (w : world),
    chronological (_buffer self) ->
    let cutoff := clock w (ticks w) - timedelta_minutes m in
    match fst (fst (get_series self m w)) with
    | Ok series =>
        window_in_range (clock w (ticks w)) m = true /\
        exists k : nat,
          Forall (fun p => ts p < cutoff) (firstn k (_buffer self)) /\
          Forall (fun p => cutoff <= ts p) (skipn k (_buffer self)) /\
          s_timestamps series = map ts (skipn k (_buffer self)) /\
          s_roquetes series = map roquetes (skipn k (_buffer self)) /\
          s_arenosillo series = map arenosillo (skipn k (_buffer self)) /\
          s_avg series = map avg (skipn k (_buffer self))
    | Raise e =>
        e = OverflowError /\ window_in_range (clock w (ticks w)) m = false
    end.
Proof.
  intros self m w Hc cutoff. rewrite get_series_eq. cbv zeta. cbn [fst].
  destruct (window_in_range (clock w (ticks w)) m); [|split; reflexivity].
  split; [reflexivity|].
  destruct (popleft_skipn cutoff (_buffer self)) as (k & Hk & Hold).
  exists k. cbn [s_timestamps s_roquetes s_arenosillo s_avg].
  fold cutoff. rewrite <- (popleft_is_filter cutoff _ Hc), Hk.
  repeat split; try reflexivity; try exact Hold.
  rewrite <- Hk. now apply popleft_all_recent.
Qed.

Lemma series_is_buffer_tail_witness :
  exists (series : MUFSeries) (k : nat),
    fst (fst (get_series
                {| _buffer := [new_point None None t0 OK;
                               new_point None None (t0 + 25 * minute) OK] |}
                20 (clock_world [t0 + 30 * minute])))
    = Ok series /\
    Forall (fun p => ts p < t0 + 30 * minute - timedelta_minutes 20)
      (firstn k [new_point None None t0 OK;
                 new_point None None (t0 + 25 * minute) OK]) /\
    Forall (fun p => t0 + 30 * minute - timedelta_minutes 20 <= ts p)
      (skipn k [new_point None None t0 OK;
                new_point None None (t0 + 25 * minute) OK]) /\
    s_timestamps series
    = map ts (skipn k [new_point None None t0 OK;
                       new_point None None (t0 + 25 * minute) OK]).
Proof.
  pose proof (series_is_buffer_tail
                {| _buffer := [new_point None None t0 OK;
                               new_point None None (t0 + 25 * minute) OK] |}
                20 (clock_world [t0 + 30 * minute])) as H.
  cbv zeta in H.
  destruct (fst (fst (get_series _ 20 (clock_world [t0 + 30 * minute]))))
    as [series|e] eqn:E.
  - destruct H as (_ & k & H1 & H2 & H3 & _).
    + repeat constructor; vm_compute; discriminate.
    + exists series, k. repeat split; assumption.
  - vm_compute in E. discriminate E.
Defined.

End StoreMore.

(* ================================================================== *)
(** * Further properties of the fetcher *)

Module FetcherMore.
Import Py Env Models Fetcher Samples Props MoreProps FetcherSpec.
#[local] Open Scope string_scope.

(** ** The retry loop on any transport *)

Lemma after_transport (w : world) (n : nat) (es : list event) :
  transport (after w n es) (requests (after w n es))
  = transport w (n + requests w).
Proof. reflexivity. Qed.

(** X5. When the first [k] attempts fail and the next one succeeds
    ([k] < 3), the fetch returns that body after [k + 1] requests, having
    slept the first [k] delays of [RETRY_DELAYS] and logged no final
    error; the clock is not read. *)
Theorem fetch_recovers :
  forall (w : world) (k : nat) (body : pyval),
    (k < MAX_RETRIES)%nat ->
    (forall j : nat, (j < k)%nat -> transport w (j + requests w) = Failed) ->
    transport w (k + requests w) = Parsed body ->
    let r := fetch_stations_data w in
    exists es : list event,
      snd r = after w (k + 1) es /\
      fst r = body /\
      count_requests es = (k + 1)%nat /\
      sleeps es = firstn k RETRY_DELAYS /\
      existsb is_error es = false.
Proof.
  intros w k body Hk Hfail Hok r. unfold r, fetch_stations_data.
  change (seq 0 MAX_RETRIES) with [0; 1; 2]%nat.
  unfold MAX_RETRIES in Hk.
  destruct k as [|[|[|k]]]; [| | |lia].
  - rewrite (attempts_loop_parsed _ _ _ _ Hok).
    eexists. repeat split.
  - rewrite attempts_loop_failed by (apply (Hfail 0%nat); lia).
    cbv zeta. change (0 <? MAX_RETRIES - 1)%nat with true. cbv iota.
    rewrite (attempts_loop_parsed _ _ _ body)
      by (rewrite after_transport; exact Hok).
    rewrite after_after. eexists. repeat split.
  - rewrite attempts_loop_failed by (apply (Hfail 0%nat); lia).
    cbv zeta. change (0 <? MAX_RETRIES - 1)%nat with true. cbv iota.
    rewrite attempts_loop_failed
      by (rewrite after_transport; apply (Hfail 1%nat); lia).
    cbv zeta. change (1 <? MAX_RETRIES - 1)%nat with true. cbv iota.
    rewrite (attempts_loop_parsed _ _ _ body)
      by (rewrite !after_after, after_transport; exact Hok).
    rewrite !after_after. eexists. repeat split.
Qed.

Lemma fetch_recovers_witness :
  exists es : list event,
    snd (fetch_stations_data
           {| clock := fun _ => t0; ticks := 0;
              transport := fun n => if (n <? 2)%nat then Failed
                                    else Parsed (PyList []);
              requests := 0; trace := [] |})
    = after {| clock := fun _ => t0; ticks := 0;
               transport := fun n => if (n <? 2)%nat then Failed
                                     else Parsed (PyList []);
               requests := 0; trace := [] |} (2 + 1) es /\
    sleeps es = firstn 2 RETRY_DELAYS.
Proof.
  destruct (fetch_recovers
              {| clock := fun _ => t0; ticks := 0;
                 transport := fun n => if (n <? 2)%nat then Failed
                                       else Parsed (PyList []);
                 requests := 0; trace := [] |} 2 (PyList []))
    as (es & H1 & _ & _ & H2 & _).
  - unfold MAX_RETRIES. lia.
  - intros j Hj. destruct j as [|[|j]]; [reflexivity | reflexivity | lia].
  - reflexivity.
  - exists es. split; [exact H1 | exact H2].
Defined.

(** X6. On every transport the fetch does one of two things.  Either some
    attempt [k] among the three is the first to succeed: the fetch returns
    its body, and the trace is, for each failed attempt before it, the
    request, the warning and one sleep of that attempt's delay, then the
    last request, with nothing after it.  Or all three attempts fail: the
    fetch returns [None], having slept 0.5 s and 1 s between the requests
    and logged the error after the third, without a sleep.  So there are
    between one and three requests, exactly one sleep between two
    consecutive requests and none after the last; the clock is not read. *)
Theorem fetch_effort_is_bounded :
  forall w : world,
    ((exists (k : nat) (body : pyval),
         (k < MAX_RETRIES)%nat /\
         (forall j : nat,
             (j < k)%nat -> transport w (j + requests w) = Failed) /\
         transport w (k + requests w) = Parsed body /\
         fetch_stations_data w
         = (body, after w (k + 1) (recovered_trace k))) \/
     ((forall j : nat,
          (j < MAX_RETRIES)%nat -> transport w (j + requests w) = Failed) /\
      fetch_stations_data w
      = (PyNone, after w MAX_RETRIES exhausted_trace))) /\
    recovered_trace 0 = [Request] /\
    recovered_trace 1
    = [Request; Warning 1 0.5%float; Sleep 0.5%float; Request] /\
    recovered_trace 2
    = [Request; Warning 1 0.5%float; Sleep 0.5%float;
       Request; Warning 2 1%float; Sleep 1%float; Request].
Proof.
  intros w. split; [|repeat split].
  unfold fetch_stations_data.
  change (seq 0 MAX_RETRIES) with [0; 1; 2]%nat.
  destruct (transport w (0 + requests w)) as [b0|] eqn:E0.
  { left. exists 0%nat, b0. unfold MAX_RETRIES.
    split; [lia|]. split; [intros j Hj; lia|]. split; [exact E0|].
    rewrite (attempts_loop_parsed _ _ _ _ E0). reflexivity. }
  rewrite attempts_loop_failed by exact E0.
  cbv zeta. change (0 <? MAX_RETRIES - 1)%nat with true. cbv iota.
  destruct (transport w (1 + requests w)) as [b1|] eqn:E1.
  { left. exists 1%nat, b1. unfold MAX_RETRIES.
    split; [lia|].
    split; [intros j Hj; destruct j as [|j]; [exact E0 | lia]|].
    split; [exact E1|].
    rewrite (attempts_loop_parsed _ _ _ b1)
      by (rewrite after_transport; exact E1).
    rewrite after_after. reflexivity. }
  rewrite attempts_loop_failed by (rewrite after_transport; exact E1).
  cbv zeta. change (1 <? MAX_RETRIES - 1)%nat with true. cbv iota.
  destruct (transport w (2 + requests w)) as [b2|] eqn:E2.
  { left. exists 2%nat, b2. unfold MAX_RETRIES.
    split; [lia|].
    split; [intros j Hj; destruct j as [|[|j]]; [exact E0 | exact E1 | lia]|].
    split; [exact E2|].
    rewrite (attempts_loop_parsed _ _ _ b2)
      by (rewrite !after_after, after_transport; exact E2).
    rewrite !after_after. reflexivity. }
  rewrite attempts_loop_failed
    by (rewrite !after_after, after_transport; exact E2).
  cbv zeta. change (2 <? MAX_RETRIES - 1)%nat with false. cbv iota.
  rewrite !after_after. right. split; [|reflexivity].
  intros j Hj. unfold MAX_RETRIES in Hj.
  destruct j as [|[|[|j]]]; [exact E0 | exact E1 | exact E2 | lia].
Qed.

(** ** The resolver *)

Lemma name_match_keys (s k : string) :
  name_match s = Some k -> k = "roquetes" \/ k = "arenosillo".
Proof.
  unfold name_match. destruct (_ || _); [intros [= <-]; now left|].
  destruct (str_in _ _); [intros [= <-]; now right | discriminate].
Qed.

Lemma geo_match_keys (lat lon : float) (k : string) :
  geo_match lat lon = Some k -> k = "roquetes" \/ k = "arenosillo".
Proof.
  unfold geo_match. destruct (near lat lon 40.8 0.5); [intros [= <-]; now left|].
  destruct (near _ _ _ _); [intros [= <-]; now right | discriminate].
Qed.

Lemma identify_keys (d : dict pyval) (k : string) :
  identify d = Ok (Some k) -> k = "roquetes" \/ k = "arenosillo".
Proof.
  unfold identify.
  destruct (py_get _ "code" _); cbn [rbind]; [|discriminate].
  destruct (py_get _ "name" _) as [nm|]; cbn [rbind]; [|discriminate].
  destruct (py_lower nm) as [nl|]; cbn [rbind]; [|discriminate].
  destruct (name_match nl) as [k'|] eqn:E.
  - intros [= <-]. exact (name_match_keys _ _ E).
  - destruct (py_get _ "latitude" _) as [lat_v|]; cbn [rbind]; [|discriminate].
    destruct (py_float lat_v) as [lat|]; cbn [rbind]; [|discriminate].
    destruct (py_get _ "longitude" _) as [lon_v|]; cbn [rbind]; [|discriminate].
    destruct (py_float lon_v) as [lon|]; cbn [rbind]; [|discriminate].
    intros [= H]. exact (geo_match_keys _ _ _ H).
Qed.

Lemma dict_set_keys {V : Type} (m : dict V) (k k' : string) (v : V) :
  In k' (map fst (dict_set m k v)) -> k' = k \/ In k' (map fst m).
Proof.
  induction m as [|[k1 v1] m IH]; cbn [dict_set map fst In].
  - intros [<- | []]. now left.
  - destruct (String.eqb k1 k); cbn [map fst In].
    + intros H. now right.
    + intros [H | H]; [right; now left|].
      destruct (IH H) as [-> | H']; [now left | right; now right].
Qed.

Lemma dict_set_NoDup {V : Type} (m : dict V) (k : string) (v : V) :
  NoDup (map fst m) -> NoDup (map fst (dict_set m k v)).
Proof.
  induction m as [|[k1 v1] m IH]; cbn [dict_set map fst]; intros H.
  - constructor; [intros [] | constructor].
  - inversion H as [|? ? Hn Hm]; subst.
    destruct (String.eqb k1 k) eqn:E; cbn [map fst].
    + constructor; assumption.
    + constructor; [|now apply IH].
      intros Hin. apply dict_set_keys in Hin. destruct Hin as [-> | Hin].
      * rewrite String.eqb_refl in E. discriminate.
      * now apply Hn.
Qed.

Lemma stations_loop_keys (l : list pyval) :
  forall (m m' : dict StationData) (w w' : world),
    stations_loop m l w = (Ok m', w') ->
    NoDup (map fst m) /\
    (forall k, In k (map fst m) -> k = "roquetes" \/ k = "arenosillo") ->
    NoDup (map fst m') /\
    (forall k, In k (map fst m') -> k = "roquetes" \/ k = "arenosillo").
Proof.
  induction l as [|x l IH]; intros m m' w w' Hrun Hm.
  - cbn in Hrun. inversion Hrun; subst. exact Hm.
  - cbn [stations_loop] in Hrun. unfold bind in Hrun.
    destruct (station_step_cases m x w)
      as [[_ H] | [(e & _ & H) | (d & k & _ & Hid & H)]]; rewrite H in Hrun.
    + exact (IH _ _ _ _ Hrun Hm).
    + discriminate.
    + destruct (station_data d (clock w (ticks w))) as [sd|e];
        cbn [rbind] in Hrun; [|discriminate].
      refine (IH _ _ _ _ Hrun _). destruct Hm as [Hnd Hk]. split.
      * now apply dict_set_NoDup.
      * intros k' Hin. apply dict_set_keys in Hin.
        destruct Hin as [-> | Hin]; [exact (identify_keys _ _ Hid) | auto].
Qed.

(** X7. Whatever the payload, a result of the resolver has at most the
    two entries ["roquetes"] and ["arenosillo"], each at most once, and
    every entry carries a timestamp read from the clock during the call. *)
Theorem resolver_result_shape :
  forall (payload : pyval) (w w' : world) (m : dict StationData),
    filter_spanish_stations payload w = (Ok m, w') ->
    NoDup (map fst m) /\
    (forall k, In k (map fst m) -> k = "roquetes" \/ k = "arenosillo") /\
    (List.length m <= 2)%nat /\
    Forall (stamped w w') m.
Proof.
  intros payload w w' m Hrun.
  assert (Hk : NoDup (map fst m) /\
               (forall k, In k (map fst m) ->
                          k = "roquetes" \/ k = "arenosillo")).
  { unfold filter_spanish_stations in Hrun.
    destruct (py_iter payload) as [l|e]; [|discriminate].
    apply (stations_loop_keys l [] m w w' Hrun).
    split; [constructor | intros k []]. }
  destruct Hk as [Hnd Hk]. repeat split; try assumption.
  - rewrite <- (length_map fst m).
    change 2%nat with (List.length ["roquetes"; "arenosillo"]).
    apply NoDup_incl_length; [exact Hnd|].
    intros k Hin. destruct (Hk k Hin) as [-> | ->]; [now left | right; now left].
  - exact (filter_stamped _ _ _ _ Hrun).
Qed.

Lemma resolver_result_shape_witness :
  let payload :=
    PyList [record "Roquetes" (PyStr "40.8") (PyStr "0.5") (PyFloat 7.5%float);
            PyStr "noise";
            record "Ebre" (PyInt 41) (PyInt 0) (PyFloat 8.5%float);
            record "INTA" (PyFloat 37.1%float) (PyFloat (-6.7)%float) PyNone] in
  let w := clock_world [t0; t0 + 1000000; t0 + 2000000] in
  exists m : dict StationData,
    fst (filter_spanish_stations payload w) = Ok m /\
    map fst m = ["roquetes"; "arenosillo"] /\
    NoDup (map fst m) /\ (List.length m <= 2)%nat.
Proof.
  intros payload w.
  destruct (filter_spanish_stations payload w) as [[m|e] w'] eqn:E;
    [|vm_compute in E; discriminate E].
  exists m.
  destruct (resolver_result_shape payload w w' m E) as (H1 & _ & H3 & _).
  repeat split; try assumption.
  vm_compute in E. injection E as <- _. reflexivity.
Defined.

(** X8. An item the loop skips (anything that is not a dict, and a record
    matching neither station by name nor by coordinates) changes neither
    the result nor the clock readings of the resolver: the payload with
    and without it give the same outcome. *)
Theorem skipped_item_is_invisible :
  forall (l1 l2 : list pyval) (x : pyval) (w : world),
    key_of x = Ok None ->
    filter_spanish_stations (PyList (l1 ++ x :: l2)%list) w
    = filter_spanish_stations (PyList (l1 ++ l2)%list) w.
Proof.
  intros l1 l2 x w Hx. cbn [filter_spanish_stations py_iter].
  rewrite !stations_loop_app.
  destruct (stations_loop [] l1 w) as [[m1|e] w1]; [|reflexivity].
  cbn [stations_loop]. unfold bind.
  destruct (station_step_cases m1 x w1)
    as [[_ H] | [(e & Hk & H) | (d & k & Hd & Hid & H)]].
  - rewrite H. reflexivity.
  - congruence.
  - subst x. cbn [key_of] in Hx. congruence.
Qed.

Lemma skipped_item_is_invisible_witness :
  filter_spanish_stations
    (PyList ([record "Ebre" (PyInt 41) (PyInt 0) (PyFloat 8.5%float)]
             ++ record "Madrid" (PyFloat 40.4%float) (PyFloat (-3.7)%float)
                  (PyFloat 6%float)
             :: [PyNone])%list)
    (clock_world [t0; t0 + 1000000])
  = filter_spanish_stations
      (PyList ([record "Ebre" (PyInt 41) (PyInt 0) (PyFloat 8.5%float)]
               ++ [PyNone])%list)
      (clock_world [t0; t0 + 1000000]).
Proof.
  apply skipped_item_is_invisible. vm_compute. reflexivity.
Defined.

Lemma strings_unmatched (l : list pyval) :
  Forall (fun q => exists s, q = PyStr s) l ->
  forall q, In q l -> key_of q = Ok None.
Proof.
  intros H q Hq. rewrite Forall_forall in H.
  destruct (H q Hq) as [s ->]. reflexivity.
Qed.

Lemma chars_strings (s : string) :
  Forall (fun q => exists s', q = PyStr s') (chars s).
Proof.
  induction s as [|c s IH]; cbn [chars]; constructor; [eexists; reflexivity|].
  exact IH.
Qed.

(** X9. A payload that is not a list.  A non-empty JSON object or string
    is iterated (over its keys, over its characters), nothing matches, and
    [get_muf_data] returns no value for either station with the current
    clock reading as timestamp; a [true] or a non-zero number is not
    iterable, and [get_muf_data] raises [TypeError]. *)
Theorem get_muf_data_on_non_list_payload :
  forall w : world,
    let payload := fst (fetch_stations_data w) in
    let res := fst (get_muf_data w) in
    (forall d, payload = PyDict d -> truthy payload = true ->
               res = Ok (None, None, Some (clock w (ticks w)))) /\
    (forall s, payload = PyStr s -> truthy payload = true ->
               res = Ok (None, None, Some (clock w (ticks w)))) /\
    (forall b, payload = PyBool b -> truthy payload = true ->
               res = Raise TypeError) /\
    (forall z, payload = PyInt z -> truthy payload = true ->
               res = Raise TypeError) /\
    (forall f, payload = PyFloat f -> truthy payload = true ->
               res = Raise TypeError).
Proof.
  intros w payload res. unfold res. rewrite get_muf_data_eq. cbv zeta.
  fold payload. destruct (fetch_extends w) as [[Hc _] Ht].
  set (w1 := snd (fetch_stations_data w)) in *.
  assert (Hun : forall l, Forall (fun q => exists s, q = PyStr s) l ->
                  py_iter payload = Ok l -> truthy payload = true ->
                  fst (if truthy payload
                       then match filter_spanish_stations payload w1 with
                            | (Raise e, w2) => (Raise e, w2)
                            | (Ok sp, w2) =>
                                match latest_of (dict_values sp) with
                                | Some t =>
                                    (Ok (muf_of sp "roquetes",
                                         muf_of sp "arenosillo", Some t), w2)
                                | None =>
                                    (Ok (muf_of sp "roquetes",
                                         muf_of sp "arenosillo",
                                         Some (clock w2 (ticks w2))),
                                     snd (now w2))
                                end
                            end
                       else (Ok (None, None, None), w1))
                  = Ok (None, None, Some (clock w (ticks w)))).
  { intros l Hl Hit Htr. rewrite Htr. unfold filter_spanish_stations.
    rewrite Hit.
    rewrite (stations_loop_unmatched l [] w1 (strings_unmatched l Hl)).
    cbn. rewrite Hc, Ht. reflexivity. }
  repeat split.
  - intros d Hd Htr. apply (Hun (map (fun kv => PyStr (fst kv)) d)).
    + apply Forall_forall. intros q Hq. apply in_map_iff in Hq.
      destruct Hq as (kv & <- & _). eexists. reflexivity.
    + rewrite Hd. reflexivity.
    + exact Htr.
  - intros s Hs Htr. apply (Hun (chars s)).
    + apply chars_strings.
    + rewrite Hs. reflexivity.
    + exact Htr.
  - intros b Hb Htr. rewrite Htr, Hb. reflexivity.
  - intros z Hz Htr. rewrite Htr, Hz. reflexivity.
  - intros f Hf Htr. rewrite Htr, Hf. reflexivity.
Qed.

(** ** The bounding-box test *)

Lemma py_float_raises (v : pyval) (e : exn) :
  py_float v = Raise e ->
  e = TypeError \/ e = ValueError \/ e = OverflowError.
Proof.
  destruct v as [| b | z | f | s | l | d]; cbn [py_float];
    try discriminate; try (intros [= <-]; now left).
  - destruct (float_of_Z z); [discriminate | intros [= <-]; right; now right].
  - destruct (float_of_string s);
      [discriminate | intros [= <-]; right; now left].
Qed.

(** X10. [is_spanish_station] on any value.  It never lets a [ValueError]
    or a [TypeError] out: text or [null] in a coordinate gives [False].
    With both coordinates convertible the answer is the bounding-box test
    on the converted values; a record without any station object reads
    (0, 0) and is not Spanish.  What it still raises is [AttributeError]
    (the record or its station object is not a dict) and [OverflowError]
    (an integer coordinate too large for a float). *)
Theorem is_spanish_station_cases :
  forall v : pyval,
    (forall e, is_spanish_station v = Raise e ->
               e = AttributeError \/ e = OverflowError) /\
    (forall d info lat lon,
        v = PyDict d ->
        get_default d "station" (PyDict []) = PyDict info ->
        py_float (get_default info "latitude" (PyInt 0)) = Ok lat ->
        py_float (get_default info "longitude" (PyInt 0)) = Ok lon ->
        is_spanish_station v = Ok (in_spain lat lon)) /\
    (forall d info e,
        v = PyDict d ->
        get_default d "station" (PyDict []) = PyDict info ->
        e = ValueError \/ e = TypeError ->
        py_float (get_default info "latitude" (PyInt 0)) = Raise e \/
        (raises (py_float (get_default info "latitude" (PyInt 0))) = false /\
         py_float (get_default info "longitude" (PyInt 0)) = Raise e) ->
        is_spanish_station v = Ok false) /\
    (forall d, v = PyDict d -> dict_get d "station" = None ->
               is_spanish_station v = Ok false) /\
    (forall d, v = PyDict d ->
               match get_default d "station" (PyDict []) with
               | PyDict _ => True
               | _ => is_spanish_station v = Raise AttributeError
               end) /\
    match v with
    | PyDict _ => True
    | _ => is_spanish_station v = Raise AttributeError
    end.
Proof.
  intros v. split; [|split; [|split; [|split; [|split]]]].
  - intros e. destruct v as [| b | z | f | s | l | d];
      try (intros [= <-]; now left).
    unfold is_spanish_station. cbn [py_get rbind].
    destruct (get_default d "station" (PyDict [])) as [| b | z | f | s | l | si];
      try (intros [= <-]; now left).
    cbn [py_get rbind].
    destruct (py_float (get_default si "latitude" (PyInt 0)))
      as [lat|e1] eqn:E2; cbn [rbind].
    2:{ destruct (py_float_raises _ _ E2) as [-> | [-> | ->]];
        [discriminate | discriminate | intros [= <-]; now right]. }
    destruct (py_float (get_default si "longitude" (PyInt 0)))
      as [lon|e1] eqn:E4; cbn [rbind].
    2:{ destruct (py_float_raises _ _ E4) as [-> | [-> | ->]];
        [discriminate | discriminate | intros [= <-]; now right]. }
    discriminate.
  - intros d info lat lon -> Hs Hlat Hlon. unfold is_spanish_station.
    cbn [py_get rbind]. rewrite Hs. cbn [py_get rbind].
    rewrite Hlat. cbn [rbind]. rewrite Hlon. reflexivity.
  - intros d info e -> Hs He [Hlat | [Hlat Hlon]]; unfold is_spanish_station;
      cbn [py_get rbind]; rewrite Hs; cbn [py_get rbind].
    + rewrite Hlat. destruct He as [-> | ->]; reflexivity.
    + destruct (py_float (get_default info "latitude" (PyInt 0)));
        [|discriminate]. cbn [rbind]. rewrite Hlon.
      destruct He as [-> | ->]; reflexivity.
  - intros d -> Hs.
    assert (Hd : get_default d "station" (PyDict []) = PyDict [])
      by (unfold get_default; now rewrite Hs).
    unfold is_spanish_station. cbn [py_get rbind]. rewrite Hd.
    vm_compute. reflexivity.
  - intros d ->. unfold is_spanish_station. cbn [py_get rbind].
    destruct (get_default d "station" (PyDict [])); try exact I; reflexivity.
  - destruct v; try exact I; reflexivity.
Qed.

(** ** Values returned by [get_muf_data] *)

Lemma station_data_mufd (d : dict pyval) (t : Z) (sd : StationData) :
  station_data d t = Ok sd ->
  validate_optional_float (get_default d "mufd" PyNone) = Ok (mufd sd).
Proof.
  unfold station_data.
  destruct (py_get _ "name" _) as [nm|]; cbn [rbind]; [|discriminate].
  destruct (py_get _ "latitude" _) as [lat_v|]; cbn [rbind]; [|discriminate].
  destruct (py_float lat_v) as [lat|]; cbn [rbind]; [|discriminate].
  destruct (py_get _ "longitude" _) as [lon_v|]; cbn [rbind]; [|discriminate].
  destruct (py_float lon_v) as [lon|]; cbn [rbind]; [|discriminate].
  destruct nm; try discriminate.
  destruct (validate_optional_float _) as [mu|]; cbn [rbind]; [|discriminate].
  intros [= <-]. reflexivity.
Qed.

Lemma station_data_raise_indep (d : dict pyval) (t t' : Z) (e : exn) :
  station_data d t = Raise e -> station_data d t' = Raise e.
Proof.
  unfold station_data.
  destruct (py_get _ "name" _) as [nm|]; cbn [rbind]; [|auto].
  destruct (py_get _ "latitude" _) as [lat_v|]; cbn [rbind]; [|auto].
  destruct (py_float lat_v) as [lat|]; cbn [rbind]; [|auto].
  destruct (py_get _ "longitude" _) as [lon_v|]; cbn [rbind]; [|auto].
  destruct (py_float lon_v) as [lon|]; cbn [rbind]; [|auto].
  destruct nm; auto.
  destruct (validate_optional_float _) as [mu|]; cbn [rbind];
    [discriminate | auto].
Qed.

(** The entry of [k] after the loop, when [r] is the last record that
    resolves to [k]. *)
Lemma stations_loop_last (pre post : list pyval) (r : dict pyval)
    (k : string) (m0 m : dict StationData) (w w' : world) :
  stations_loop m0 (pre ++ PyDict r :: post)%list w = (Ok m, w') ->
  identify r = Ok (Some k) ->
  (forall q, In q post -> key_of q = Ok (Some k) -> False) ->
  exists (t : Z) (sd : StationData),
    station_data r t = Ok sd /\ dict_get m k = Some sd.
Proof.
  intros Hrun Hid Hpost. rewrite stations_loop_app in Hrun.
  destruct (stations_loop m0 pre w) as [[m1|e] w1]; [|discriminate].
  cbn [stations_loop] in Hrun. unfold bind in Hrun.
  cbn [station_step] in Hrun. rewrite Hid in Hrun.
  unfold bind, ret in Hrun.
  change (now w1) with (clock w1 (ticks w1), snd (now w1)) in Hrun.
  cbv iota in Hrun.
  destruct (station_data r (clock w1 (ticks w1))) as [sd|e] eqn:Hsd;
    cbn [rbind] in Hrun; [|discriminate].
  exists (clock w1 (ticks w1)), sd. split; [exact Hsd|].
  rewrite (stations_loop_other_keys k post _ _ _ _ Hrun Hpost).
  apply dict_get_set_same.
Qed.

Lemma truthy_app_cons (pre post : list pyval) (x : pyval) :
  truthy (PyList (pre ++ x :: post)%list) = true.
Proof. destruct pre; reflexivity. Qed.

(** X11. The value [get_muf_data] returns for a station is the [mufd]
    field of the last record of the payload that resolves to it, as the
    validation of the [Optional[float]] field of [StationData] coerces it
    ([null] stays [None]; a number becomes a float; text is read by
    pydantic's own rules, not by [float]); a station no record resolves
    to gets [None]. *)
Theorem returned_value_is_last_mufd :
  forall (w : world) (pre post : list pyval) (r : dict pyval) (k : string)
         (ro ar : option float) (stamp : option Z),
    fst (fetch_stations_data w) = PyList (pre ++ PyDict r :: post)%list ->
    identify r = Ok (Some k) ->
    (forall q, In q post -> key_of q = Ok (Some k) -> False) ->
    fst (get_muf_data w) = Ok (ro, ar, stamp) ->
    validate_optional_float (get_default r "mufd" PyNone)
    = Ok (component k ro ar) /\
    (forall k', k' = "roquetes" \/ k' = "arenosillo" ->
       (forall q, In q (pre ++ PyDict r :: post)%list ->
                  key_of q = Ok (Some k') -> False) ->
       component k' ro ar = None).
Proof.
  intros w pre post r k ro ar stamp Hp Hid Hpost.
  rewrite get_muf_data_eq. cbv zeta. rewrite Hp, truthy_app_cons.
  set (w1 := snd (fetch_stations_data w)).
  cbn [filter_spanish_stations py_iter].
  destruct (stations_loop [] (pre ++ PyDict r :: post)%list w1)
    as [[m|e] w2] eqn:Hrun; [|discriminate].
  intros H.
  assert (Hres : ro = muf_of m "roquetes" /\ ar = muf_of m "arenosillo").
  { destruct (latest_of (dict_values m)); cbn [fst] in H;
      injection H as <- <- _; split; reflexivity. }
  clear H. destruct Hres as [-> ->]. split.
  - destruct (stations_loop_last _ _ _ _ _ _ _ _ Hrun Hid Hpost)
      as (t & sd & Hsd & Hget).
    rewrite (station_data_mufd _ _ _ Hsd). f_equal.
    destruct (identify_keys _ _ Hid) as [-> | ->];
      cbn [component String.eqb Ascii.eqb Bool.eqb]; unfold muf_of;
      rewrite Hget; reflexivity.
  - intros k' Hk' Hnone.
    pose proof (stations_loop_other_keys k' _ _ _ _ _ Hrun Hnone) as Hget.
    cbn [dict_get] in Hget.
    destruct Hk' as [-> | ->];
      cbn [component String.eqb Ascii.eqb Bool.eqb]; unfold muf_of;
      rewrite Hget; reflexivity.
Qed.

Lemma returned_value_is_last_mufd_witness :
  validate_optional_float (PyStr "1_e3")
  = Ok (component "roquetes" (Some 1000%float) None).
Proof.
  pose (w := {| clock := fun n => nth n [t0; t0 + 1000000] (t0 + 2000000);
                ticks := 0;
                transport := fun _ =>
                  Parsed (PyList
                    [record "Roquetes" (PyStr "40.8") (PyStr "0.5")
                       (PyFloat 7.5%float);
                     record "Ebre" (PyInt 41) (PyInt 0) (PyStr "1_e3");
                     record "Madrid" (PyFloat 40.4%float)
                       (PyFloat (-3.7)%float) (PyFloat 6%float)]);
                requests := 0; trace := [] |}).
  refine (proj1 (returned_value_is_last_mufd w
            [record "Roquetes" (PyStr "40.8") (PyStr "0.5") (PyFloat 7.5%float)]
            [record "Madrid" (PyFloat 40.4%float) (PyFloat (-3.7)%float)
               (PyFloat 6%float)]
            [("station", PyDict [("name", PyStr "Ebre"); ("latitude", PyInt 41);
                                 ("longitude", PyInt 0)]);
             ("mufd", PyStr "1_e3")]
            "roquetes" (Some 1000%float) None (Some (t0 + 1000000)) _ _ _ _)).
  - reflexivity.
  - reflexivity.
  - intros q [<- | []]. vm_compute. discriminate.
  - vm_compute. reflexivity.
Defined.

Lemma filter_first_failure (pre post : list pyval) (x : pyval) (e : exn)
    (w : world) :
  forallb resolves pre = true ->
  step_raises x e ->
  fst (filter_spanish_stations (PyList (pre ++ x :: post)%list) w) = Raise e.
Proof.
  intros Hpre Hx. cbn [filter_spanish_stations py_iter].
  rewrite stations_loop_app.
  destruct (stations_loop_total pre [] w Hpre) as [m1 Hm1].
  destruct (stations_loop [] pre w) as [[m1'|e1] w1];
    cbn [fst] in Hm1; [|discriminate].
  cbn [stations_loop]. unfold bind.
  destruct (station_step_cases m1' x w1)
    as [[Hk H] | [(e' & Hk & H) | (d & k & Hd & Hid & H)]]; rewrite H.
  - destruct Hx as [Hx | (d & k & Hd & Hid & _)].
    + congruence.
    + subst x. cbn [key_of] in Hk. congruence.
  - destruct Hx as [Hx | (d & k & Hd & Hid & _)].
    + cbv beta iota. unfold ret. cbn [fst]. congruence.
    + subst x. cbn [key_of] in Hk. congruence.
  - destruct Hx as [Hx | (d' & k' & Hd' & Hid' & Hsd)].
    + subst x. cbn [key_of] in Hx. congruence.
    + rewrite Hd in Hd'. injection Hd' as Hdd. subst d'.
      rewrite (station_data_raise_indep d 0 (clock w1 (ticks w1)) e Hsd).
      reflexivity.
Qed.

Lemma get_muf_data_first_failure (pre post : list pyval) (x : pyval)
    (e : exn) (w : world) :
  forallb resolves pre = true ->
  step_raises x e ->
  fst (fetch_stations_data w) = PyList (pre ++ x :: post)%list ->
  fst (get_muf_data w) = Raise e.
Proof.
  intros Hpre Hx Hp. rewrite get_muf_data_eq. cbv zeta.
  rewrite Hp, truthy_app_cons.
  pose proof (filter_first_failure pre post x e
                (snd (fetch_stations_data w)) Hpre Hx) as G.
  destruct (filter_spanish_stations _ _) as [[m|e1] w2]; cbn [fst] in *;
    [discriminate | injection G as ->; reflexivity].
Qed.

(** X12. The first item on which the loop body raises ends the call with
    that exception, whatever follows it: the resolver raises it, and so
    does [get_muf_data] when this is the fetched payload.  The records
    before it and after it are lost with it. *)
Theorem first_failure_aborts :
  forall (pre post : list pyval) (x : pyval) (e : exn),
    forallb resolves pre = true ->
    step_raises x e ->
    (forall w : world,
        fst (filter_spanish_stations (PyList (pre ++ x :: post)%list) w)
        = Raise e) /\
    (forall w : world,
        fst (fetch_stations_data w) = PyList (pre ++ x :: post)%list ->
        fst (get_muf_data w) = Raise e).
Proof.
  intros pre post x e Hpre Hx. split; intros w.
  - now apply filter_first_failure.
  - now apply get_muf_data_first_failure.
Qed.

Lemma first_failure_aborts_witness :
  fst (filter_spanish_stations
         (PyList ([record "Ebre" (PyInt 41) (PyInt 0) (PyFloat 8.5%float)]
                  ++ PyDict [("station", PyNone)]
                  :: [record "INTA" (PyFloat 37.1%float)
                        (PyFloat (-6.7)%float) (PyFloat 9%float)])%list)
         (clock_world [t0]))
  = Raise AttributeError.
Proof.
  apply (first_failure_aborts
           [record "Ebre" (PyInt 41) (PyInt 0) (PyFloat 8.5%float)]
           [record "INTA" (PyFloat 37.1%float) (PyFloat (-6.7)%float)
              (PyFloat 9%float)]
           (PyDict [("station", PyNone)]) AttributeError).
  - vm_compute. reflexivity.
  - left. reflexivity.
Defined.

(** X13. The timestamp loop of [get_muf_data] returns the greatest of
    the timestamps of the resolved stations, and nothing exactly when no
    station carries one. *)
Theorem latest_of_is_maximum :
  forall l : list StationData,
    match latest_of l with
    | Some t =>
        (exists sd, In sd l /\ timestamp sd = Some t) /\
        Forall (fun sd => forall t', timestamp sd = Some t' -> t' <= t) l
    | None => Forall (fun sd => timestamp sd = None) l
    end.
Proof.
  intros l. unfold latest_of.
  set (f := fun latest_timestamp station => _).
  assert (F1 : forall acc sd x, f acc sd = Some x ->
                 acc = Some x \/ timestamp sd = Some x).
  { intros acc sd x. unfold f.
    destruct (timestamp sd) as [t|], acc as [a|]; auto.
    destruct (a <? t)%Z; auto. }
  assert (F2 : forall acc sd a, acc = Some a ->
                 exists x, f acc sd = Some x /\ a <= x).
  { intros acc sd a ->. unfold f. destruct (timestamp sd) as [t|].
    - destruct (a <? t)%Z eqn:E.
      + apply Z.ltb_lt in E. exists t. split; [reflexivity | lia].
      + exists a. split; [reflexivity | lia].
    - exists a. split; [reflexivity | lia]. }
  assert (F3 : forall acc sd t, timestamp sd = Some t ->
                 exists x, f acc sd = Some x /\ t <= x).
  { intros acc sd t Ht. unfold f. rewrite Ht. destruct acc as [a|].
    - destruct (a <? t)%Z eqn:E.
      + exists t. split; [reflexivity | lia].
      + apply Z.ltb_ge in E. exists a. split; [reflexivity | lia].
    - exists t. split; [reflexivity | lia]. }
  assert (F4 : forall acc sd, f acc sd = None ->
                 acc = None /\ timestamp sd = None).
  { intros acc sd. unfold f.
    destruct (timestamp sd) as [t|], acc as [a|]; try discriminate; auto.
    destruct (a <? t)%Z; discriminate. }
  assert (G : forall (l : list StationData) (acc : option Z),
             match fold_left f l acc with
             | Some t =>
                 (acc = Some t \/
                  exists sd, In sd l /\ timestamp sd = Some t) /\
                 (forall a, acc = Some a -> a <= t) /\
                 Forall (fun sd => forall t', timestamp sd = Some t' ->
                                              t' <= t) l
             | None => acc = None /\
                       Forall (fun sd => timestamp sd = None) l
             end).
  { clear l. induction l as [|sd l IH]; intros acc; cbn [fold_left].
    - destruct acc as [a|].
      + split; [now left|]. split; [|constructor].
        intros a' [= ->]. lia.
      + split; [reflexivity | constructor].
    - specialize (IH (f acc sd)).
      destruct (fold_left f l (f acc sd)) as [t|].
      + destruct IH as (Hsrc & Hacc & Hall). split; [|split].
        * destruct Hsrc as [Hsrc | (sd' & Hin & Hsd')].
          -- destruct (F1 _ _ _ Hsrc) as [H | H]; [now left|].
             right. exists sd. split; [now left | exact H].
          -- right. exists sd'. split; [now right | exact Hsd'].
        * intros a Ha. destruct (F2 acc sd a Ha) as (x & Hx & Hle).
          specialize (Hacc x Hx). lia.
        * constructor; [|exact Hall].
          intros t' Ht'. destruct (F3 acc sd t' Ht') as (x & Hx & Hle).
          specialize (Hacc x Hx). lia.
      + destruct IH as (Hf & Hall). destruct (F4 _ _ Hf) as [Ha Hsd].
        split; [exact Ha | constructor; assumption]. }
  specialize (G l None). destruct (fold_left f l None) as [t|].
  - destruct G as ([H | H] & _ & Hall); [discriminate|].
    split; assumption.
  - apply G.
Qed.

End FetcherMore.

(* ================================================================== *)
(** * Properties of the updater and the endpoints *)

Module MainSpec.
Import Py Env Models Store Fetcher Main Samples Props MoreProps.
Import StoreSpec FetcherSpec StoreMore FetcherMore.

(** [update_muf_data], one effect at a time. *)
Lemma update_muf_data_eq (s : MUFStore) (w : world) :
  update_muf_data s w =
  match get_muf_data w with
  | (Raise _, w1) => (s, w1)
  | (Ok (ro, ar, Some t), w1) => add_data_point s ro ar t w1
  | (Ok (ro, ar, None), w1) =>
      add_data_point s ro ar (clock w1 (ticks w1)) (snd (now w1))
  end.
Proof.
  unfold update_muf_data, bind.
  destruct (get_muf_data w) as [[[[ro ar] [t|]]|e] w1]; reflexivity.
Qed.

Lemma get_muf_data_extends (w : world) : extends w (snd (get_muf_data w)).
Proof.
  rewrite get_muf_data_eq. cbv zeta. destruct (fetch_extends w) as [He _].
  destruct (truthy _); [|exact He].
  pose proof (filter_extends (fst (fetch_stations_data w))
                (snd (fetch_stations_data w))) as H2.
  destruct (filter_spanish_stations _ _) as [[sp|e] w2]; cbn [snd] in *.
  - destruct (latest_of _); cbn [snd].
    + eapply extends_trans; eassumption.
    + eapply extends_trans; [eapply extends_trans; eassumption|].
      apply extends_now.
  - eapply extends_trans; eassumption.
Qed.

Lemma get_muf_data_some_stamp (w : world) (ro ar : option float) (t : Z) :
  fst (get_muf_data w) = Ok (ro, ar, Some t) ->
  read_between w (snd (get_muf_data w)) t.
Proof.
  intros H. destruct (truthy (fst (fetch_stations_data w))) eqn:E.
  - destruct (get_muf_data_stamp w ro ar (Some t) E H) as (t' & Ht & Hr).
    injection Ht as ->. exact Hr.
  - rewrite get_muf_data_eq in H. cbv zeta in H. rewrite E in H.
    discriminate.
Qed.

Lemma set_last_point_timestamps (l : list MUFData) (p q : MUFData) :
  last_point l = Some p -> ts q = ts p ->
  map ts (set_last_point l q) = map ts l.
Proof.
  induction l as [|x l IH]; [reflexivity|].
  destruct l as [|y l].
  - cbn. intros [= ->] H. now rewrite H.
  - intros H Hq.
    change (ts x :: map ts (set_last_point (y :: l) q)
            = ts x :: map ts (y :: l)).
    f_equal. now apply IH.
Qed.

Lemma chronological_same_timestamps (l : list MUFData) :
  forall l' : list MUFData,
    map ts l' = map ts l -> chronological l -> chronological l'.
Proof.
  unfold chronological.
  induction l as [|x l IH]; intros [|y l'] H Hs; try discriminate.
  - constructor.
  - cbn in H. injection H as Hy Hl.
    inversion Hs as [|? ? Hs' Hx]; subst. constructor; [now apply IH|].
    apply (Forall_map ts (fun t => ts y <= t)).
    rewrite Hl, Hy. now apply (Forall_map ts (fun t => ts x <= t)).
Qed.

Lemma read_before_same_timestamps (w0 : world) (n : nat)
    (l l' : list MUFData) :
  map ts l' = map ts l ->
  Forall (read_before w0 n) l -> Forall (read_before w0 n) l'.
Proof.
  intros H Hl.
  apply (Forall_map ts (fun t => exists i, (i < n)%nat /\ t = clock w0 i)).
  rewrite H.
  now apply (Forall_map ts (fun t => exists i, (i < n)%nat /\ t = clock w0 i)).
Qed.

Lemma read_before_le (w0 : world) (n n' : nat) (l : list MUFData) :
  (n <= n')%nat ->
  Forall (read_before w0 n) l -> Forall (read_before w0 n') l.
Proof.
  intros Hn. apply Forall_impl. intros p (i & Hi & Hp).
  exists i. split; [lia | exact Hp].
Qed.

(** What a read of the latest point does to the store and the clock. *)
Lemma get_latest_keeps (s : MUFStore) (w : world) :
  clock (snd (get_latest s w)) = clock w /\
  (ticks w <= ticks (snd (get_latest s w)))%nat /\
  map ts (_buffer (snd (fst (get_latest s w)))) = map ts (_buffer s).
Proof.
  rewrite get_latest_eq. destruct (last_point (_buffer s)) as [p|] eqn:E.
  - cbn [fst snd now clock ticks _buffer]. repeat split; [lia|].
    apply (set_last_point_timestamps _ p); [exact E|].
    now destruct (reread_ages (clock w (ticks w)) p) as [(_ & _ & _ & Ht) _].
  - cbn [fst snd]. repeat split. lia.
Qed.

Lemma get_latest_muf_eq (round1 : float -> float) (s : MUFStore)
    (w : world) :
  get_latest_muf round1 s w =
  match last_point (_buffer s) with
  | None =>
      (({| roquetes := None; arenosillo := None; avg := None;
           ts := clock w (ticks w); status := STALE |}, s), snd (now w))
  | Some p =>
      let q := rounded round1 (reread (clock w (ticks w)) p) in
      ((q, {| _buffer := set_last_point
                           (set_last_point (_buffer s)
                              (reread (clock w (ticks w)) p)) q |}),
       snd (now w))
  end.
Proof.
  unfold get_latest_muf, bind. rewrite get_latest_eq.
  destruct (last_point (_buffer s)); reflexivity.
Qed.

Lemma get_latest_muf_keeps (round1 : float -> float) (s : MUFStore)
    (w : world) :
  clock (snd (get_latest_muf round1 s w)) = clock w /\
  (ticks w <= ticks (snd (get_latest_muf round1 s w)))%nat /\
  map ts (_buffer (snd (fst (get_latest_muf round1 s w))))
  = map ts (_buffer s).
Proof.
  rewrite get_latest_muf_eq.
  destruct (last_point (_buffer s)) as [p|] eqn:E; cbv zeta;
    cbn [fst snd now clock ticks _buffer].
  - repeat split; [lia|].
    assert (Ht : ts (reread (clock w (ticks w)) p) = ts p)
      by now destruct (reread_ages (clock w (ticks w)) p)
           as [(_ & _ & _ & Ht) _].
    rewrite (set_last_point_timestamps _ (reread (clock w (ticks w)) p)).
    + now apply (set_last_point_timestamps _ p).
    + now apply (last_point_set _ p).
    + reflexivity.
  - repeat split. lia.
Qed.

Section Invariant.

Variable w0 : world.
Hypothesis clock_monotone : monotone_clock w0.

Lemma add_data_point_keeps (s : MUFStore) (ro ar : option float)
    (k n : nat) (w : world) :
  clock w = clock w0 -> (k <= n)%nat -> (n < ticks w)%nat ->
  chronological (_buffer s) ->
  Forall (read_before w0 k) (_buffer s) ->
  let r := add_data_point s ro ar (clock w0 n) w in
  clock (snd r) = clock w0 /\
  ticks (snd r) = S (S (ticks w)) /\
  chronological (_buffer (fst r)) /\
  Forall (read_before w0 (ticks (snd r))) (_buffer (fst r)) /\
  Forall (fun p => cutoff_of (clock w0 (S (ticks w))) <= ts p)
    (_buffer (fst r)).
Proof.
  intros Hc Hk Hn Hs Hb r. unfold r. rewrite add_data_point_eq.
  cbn [fst snd now clock ticks _buffer]. rewrite Hc.
  assert (Hch : chronological
                  (_buffer s ++ [new_point ro ar (clock w0 n)
                                   (initial_status (clock w0 (ticks w))
                                      (clock w0 n))])).
  { apply chronological_snoc; [exact Hs|]. intros p Hp.
    rewrite Forall_forall in Hb. destruct (Hb p Hp) as (i & Hi & ->).
    cbn [ts new_point]. apply clock_monotone. lia. }
  repeat split.
  - now apply popleft_chronological.
  - apply popleft_Forall. apply Forall_app. split.
    + apply (read_before_le w0 k); [lia | exact Hb].
    + constructor; [|constructor]. exists n. split; [lia | reflexivity].
  - now apply popleft_all_recent.
Qed.

Lemma update_keeps (s : MUFStore) (w : world) :
  clock w = clock w0 ->
  chronological (_buffer s) ->
  Forall (read_before w0 (ticks w)) (_buffer s) ->
  let r := update_muf_data s w in
  clock (snd r) = clock w0 /\
  (ticks w <= ticks (snd r))%nat /\
  chronological (_buffer (fst r)) /\
  Forall (read_before w0 (ticks (snd r))) (_buffer (fst r)) /\
  (raises (fst (get_muf_data w)) = false ->
   Forall (fun p => cutoff_of (clock w0 (ticks (snd r) - 1)) <= ts p)
     (_buffer (fst r))).
Proof.
  intros Hc Hs Hb r. unfold r. rewrite update_muf_data_eq.
  destruct (get_muf_data_extends w) as [Hc1 Ht1].
  pose proof (get_muf_data_some_stamp w) as Hst.
  destruct (get_muf_data w) as [[[[ro ar] [t|]]|e] w1];
    cbn [fst snd raises] in *.
  - destruct (Hst ro ar t eq_refl) as (n & Hn & ->). rewrite Hc.
    destruct (add_data_point_keeps s ro ar (ticks w) n w1)
      as (H1 & H2 & H3 & H4 & H5);
      [congruence | lia | lia | exact Hs | exact Hb |].
    repeat split; try assumption; [lia|].
    intros _. rewrite H2. now replace (S (S (ticks w1)) - 1)%nat
                             with (S (ticks w1)) by lia.
  - rewrite Hc1, Hc.
    destruct (add_data_point_keeps s ro ar (ticks w) (ticks w1)
                (snd (now w1)))
      as (H1 & H2 & H3 & H4 & H5);
      [cbn; congruence | lia | cbn; lia | exact Hs | exact Hb |].
    repeat split; try assumption; [rewrite H2; cbn [now snd ticks]; lia|].
    intros _. rewrite H2.
    now replace (S (S (ticks (snd (now w1)))) - 1)%nat
      with (S (ticks (snd (now w1)))) by lia.
  - repeat split; [congruence | exact Ht1 | exact Hs | | discriminate].
    now apply (read_before_le w0 (ticks w)).
Qed.

Lemma serve_keeps (round1 : float -> float) (rq : request) (s : MUFStore)
    (w : world) :
  clock w = clock w0 ->
  chronological (_buffer s) ->
  Forall (read_before w0 (ticks w)) (_buffer s) ->
  let r := serve round1 rq s w in
  clock (snd r) = clock w0 /\
  (ticks w <= ticks (snd r))%nat /\
  chronological (_buffer (fst r)) /\
  Forall (read_before w0 (ticks (snd r))) (_buffer (fst r)).
Proof.
  intros Hc Hs Hb r. unfold r. destruct rq; cbn [serve].
  - destruct (update_keeps s w Hc Hs Hb) as (H1 & H2 & H3 & H4 & _).
    auto.
  - unfold bind, ret. destruct (get_latest_keeps s w) as (H1 & H2 & H3).
    destruct (get_latest s w) as [[o s'] w']; cbn [fst snd] in *.
    repeat split; [congruence | exact H2 | |].
    + now apply (chronological_same_timestamps (_buffer s)).
    + apply (read_before_same_timestamps w0 _ (_buffer s)); [exact H3|].
      now apply (read_before_le w0 (ticks w)).
  - unfold bind, ret.
    destruct (get_latest_muf_keeps round1 s w) as (H1 & H2 & H3).
    destruct (get_latest_muf round1 s w) as [[o s'] w']; cbn [fst snd] in *.
    repeat split; [congruence | exact H2 | |].
    + now apply (chronological_same_timestamps (_buffer s)).
    + apply (read_before_same_timestamps w0 _ (_buffer s)); [exact H3|].
      now apply (read_before_le w0 (ticks w)).
  - unfold bind, ret. rewrite get_series_eq. cbv zeta.
    cbn [fst snd now clock ticks].
    repeat split; [exact Hc | lia | exact Hs |].
    apply (read_before_le w0 (ticks w)); [lia | exact Hb].
  - cbn. repeat split; [exact Hc | lia | exact Hs |].
    apply (read_before_le w0 (ticks w)); [lia | exact Hb].
  - unfold force_refresh, bind, ret.
    destruct (update_keeps s w Hc Hs Hb) as (H1 & H2 & H3 & H4 & _).
    destruct (update_muf_data s w) as [s1 w1]; cbn [fst snd] in *.
    destruct (get_latest_keeps s1 w1) as (G1 & G2 & G3).
    destruct (get_latest s1 w1) as [[o s'] w']; cbn [fst snd] in *.
    repeat split; [congruence | lia | |].
    + now apply (chronological_same_timestamps (_buffer s1)).
    + apply (read_before_same_timestamps w0 _ (_buffer s1)); [exact G3|].
      now apply (read_before_le w0 (ticks w1)).
Qed.

Lemma serve_all_keeps (round1 : float -> float) (rqs : list request) :
  forall (s : MUFStore) (w : world),
    clock w = clock w0 ->
    chronological (_buffer s) ->
    Forall (read_before w0 (ticks w)) (_buffer s) ->
    let r := serve_all round1 rqs s w in
    clock (snd r) = clock w0 /\
    (ticks w <= ticks (snd r))%nat /\
    chronological (_buffer (fst r)) /\
    Forall (read_before w0 (ticks (snd r))) (_buffer (fst r)).
Proof.
  induction rqs as [|rq rqs IH]; intros s w Hc Hs Hb; cbn [serve_all].
  - cbn. auto.
  - unfold bind.
    destruct (serve_keeps round1 rq s w Hc Hs Hb) as (H1 & H2 & H3 & H4).
    destruct (serve round1 rq s w) as [s1 w1]; cbn [fst snd] in *.
    destruct (IH s1 w1 H1 H3 H4) as (G1 & G2 & G3 & G4).
    repeat split; try assumption. lia.
Qed.

End Invariant.

(** X14. Through the application the store only ever receives clock
    readings as timestamps, never a field of the payload.  So with a clock
    that does not go back, after any sequence of updates, page and API
    reads, series requests, health checks and forced refreshes on a fresh
    store, the buffer is in chronological order and each stored timestamp
    is a reading the clock gave earlier. *)
Theorem served_buffer_stays_chronological :
  forall (round1 : float -> float) (rqs : list request) (w : world),
    monotone_clock w ->
    let r := serve_all round1 rqs init w in
    chronological (_buffer (fst r)) /\
    Forall (read_before w (ticks (snd r))) (_buffer (fst r)) /\
    extends w (snd r).
Proof.
  intros round1 rqs w Hm r.
  destruct (serve_all_keeps w Hm round1 rqs init w eq_refl)
    as (H1 & H2 & H3 & H4); [constructor | constructor |].
  repeat split; assumption.
Qed.

Lemma served_buffer_stays_chronological_witness :
  chronological
    (_buffer (fst (serve_all (fun x => x)
                     [Update; Latest; Health; LatestApi; Refresh; Series 60]
                     init (dead_world t0)))).
Proof.
  apply (served_buffer_stays_chronological (fun x => x)
           [Update; Latest; Health; LatestApi; Refresh; Series 60]
           (dead_world t0)).
  intros i j H. cbn [dead_world clock]. lia.
Defined.

(** X15. The retention window holds through the application: with a
    clock that does not go back, right after an update whose fetch and
    resolution did not raise, no stored point is older than 60 minutes
    before the last clock reading, whatever requests were served before. *)
Theorem update_enforces_retention :
  forall (round1 : float -> float) (rqs : list request) (w : world),
    monotone_clock w ->
    let s := serve_all round1 rqs init w in
    let r := update_muf_data (fst s) (snd s) in
    raises (fst (get_muf_data (snd s))) = false ->
    Forall (fun p => cutoff_of (clock w (ticks (snd r) - 1)) <= ts p)
      (_buffer (fst r)).
Proof.
  intros round1 rqs w Hm s r Hok.
  destruct (serve_all_keeps w Hm round1 rqs init w eq_refl)
    as (H1 & H2 & H3 & H4); [constructor | constructor |].
  destruct (update_keeps w Hm (fst s) (snd s) H1 H3 H4)
    as (_ & _ & _ & _ & H5).
  exact (H5 Hok).
Qed.

Lemma update_enforces_retention_witness :
  Forall (fun p =>
            cutoff_of
              (clock (dead_world t0)
                 (ticks (snd (update_muf_data
                                (fst (serve_all (fun x => x) [Update; Latest]
                                        init (dead_world t0)))
                                (snd (serve_all (fun x => x) [Update; Latest]
                                        init (dead_world t0))))) - 1))
            <= ts p)
    (_buffer (fst (update_muf_data
                     (fst (serve_all (fun x => x) [Update; Latest]
                             init (dead_world t0)))
                     (snd (serve_all (fun x => x) [Update; Latest]
                             init (dead_world t0)))))).
Proof.
  apply (update_enforces_retention (fun x => x) [Update; Latest]
           (dead_world t0)).
  - intros i j H. cbn [dead_world clock]. lia.
  - reflexivity.
Defined.

(** X16. A failed fetch does not make the updater skip its cycle: when
    the transport fails all three attempts, [update_muf_data] appends a
    point with no value for either station and no average, stamped with
    the current clock reading (kept unless the clock jumps by more than
    the retention window within the call), and that point is then the
    latest one. *)
Theorem failed_fetch_appends_empty_point :
  forall (s : MUFStore) (w : world),
    transport_down w ->
    cutoff_of (clock w (S (S (ticks w)))) <= clock w (ticks w) ->
    let r := update_muf_data s w in
    last_point (_buffer (fst r))
    = Some (new_point None None (clock w (ticks w))
              (initial_status (clock w (S (ticks w))) (clock w (ticks w)))) /\
    trace (snd r) = (trace w ++ exhausted_trace)%list /\
    ticks (snd r) = (ticks w + 3)%nat.
Proof.
  intros s w Hd Hc r. unfold r.
  rewrite update_muf_data_eq, get_muf_data_eq. cbv zeta.
  rewrite (fetch_exhausted w Hd). cbn [fst snd truthy].
  rewrite add_data_point_eq.
  cbn [fst snd now after clock ticks trace _buffer].
  repeat split; [|lia].
  rewrite popleft_snoc_kept by exact Hc. apply last_point_snoc.
Qed.

Lemma failed_fetch_appends_empty_point_witness :
  last_point (_buffer (fst (update_muf_data init (clock_world [t0]))))
  = Some (new_point None None
            (clock (clock_world [t0]) (ticks (clock_world [t0])))
            (initial_status
               (clock (clock_world [t0]) (S (ticks (clock_world [t0]))))
               (clock (clock_world [t0]) (ticks (clock_world [t0]))))).
Proof.
  apply (failed_fetch_appends_empty_point init (clock_world [t0])).
  - intros n _. reflexivity.
  - vm_compute. discriminate.
Defined.

(** X17. One record on which the resolver raises costs the whole cycle:
    when the fetched payload has such a record after records that resolve,
    [update_muf_data] swallows the exception and leaves the store exactly
    as it was, although other records of the payload were valid. *)
Theorem bad_record_skips_the_cycle :
  forall (s : MUFStore) (w : world) (pre post : list pyval) (x : pyval)
         (e : exn),
    fst (fetch_stations_data w) = PyList (pre ++ x :: post)%list ->
    forallb resolves pre = true ->
    step_raises x e ->
    fst (update_muf_data s w) = s.
Proof.
  intros s w pre post x e Hp Hpre Hx. rewrite update_muf_data_eq.
  pose proof (get_muf_data_first_failure pre post x e w Hpre Hx Hp) as H.
  destruct (get_muf_data w) as [[[[ro ar] [t|]]|e1] w1]; cbn [fst] in *;
    [discriminate | discriminate | reflexivity].
Qed.

Lemma bad_record_skips_the_cycle_witness :
  fst (update_muf_data init
         (live_world t0
            (PyList
               ([record "Ebre" (PyInt 41) (PyInt 0) (PyFloat 8.5%float)]
                ++ record "Madrid" (PyStr "n/a") (PyStr "n/a")
                     (PyFloat 5%float)
                :: [record "INTA" (PyFloat 37.1%float)
                      (PyFloat (-6.7)%float) (PyFloat 9%float)])%list)))
  = init.
Proof.
  apply (bad_record_skips_the_cycle init _
           [record "Ebre" (PyInt 41) (PyInt 0) (PyFloat 8.5%float)]
           [record "INTA" (PyFloat 37.1%float) (PyFloat (-6.7)%float)
              (PyFloat 9%float)]
           (record "Madrid" (PyStr "n/a") (PyStr "n/a") (PyFloat 5%float))
           ValueError).
  - reflexivity.
  - vm_compute. reflexivity.
  - left. vm_compute. reflexivity.
Defined.

(** X18. The latest-value endpoint.  On an empty store it answers a
    placeholder without values, stale, stamped with the clock, and stores
    nothing.  Otherwise it rounds the three values of the latest point in
    the store itself: the point read next carries the rounded values (the
    stored average is the rounded average, not the average of the rounded
    values), while timestamps and the number of points are unchanged. *)
Theorem latest_endpoint_rounds_in_place :
  forall (round1 : float -> float) (s : MUFStore) (w : world),
    let r := get_latest_muf round1 s w in
    (last_point (_buffer s) = None ->
     fst r = ({| roquetes := None; arenosillo := None; avg := None;
                 ts := clock w (ticks w); status := STALE |}, s)) /\
    (forall p : MUFData,
        last_point (_buffer s) = Some p ->
        fst (fst r) = rounded round1 (reread (clock w (ticks w)) p) /\
        (exists q : MUFData,
            fst (fst (get_latest (snd (fst r)) (snd r))) = Some q /\
            roquetes q = option_map round1 (roquetes p) /\
            arenosillo q = option_map round1 (arenosillo p) /\
            avg q = option_map round1 (avg p) /\
            ts q = ts p)) /\
    map ts (_buffer (snd (fst r))) = map ts (_buffer s) /\
    get_window_size (snd (fst r)) = get_window_size s.
Proof.
  intros round1 s w r.
  destruct (get_latest_muf_keeps round1 s w) as (_ & _ & Hts).
  fold r in Hts. split; [|split; [|split]].
  - intros E. unfold r. rewrite get_latest_muf_eq, E. reflexivity.
  - intros p E. unfold r. rewrite get_latest_muf_eq, E. cbv zeta.
    cbn [fst snd]. split; [reflexivity|].
    rewrite get_latest_eq. cbn [_buffer].
    rewrite (last_point_set _ (reread (clock w (ticks w)) p))
      by now apply (last_point_set _ p).
    cbn [fst]. eexists. split; [reflexivity|].
    set (q := rounded round1 (reread (clock w (ticks w)) p)).
    destruct (reread_ages (clock (snd (now w)) (ticks (snd (now w)))) q)
      as [(H1 & H2 & H3 & H4) _].
    destruct (reread_ages (clock w (ticks w)) p)
      as [(G1 & G2 & G3 & G4) _].
    rewrite <- H1, <- H2, <- H3, <- H4. unfold q. cbn [rounded roquetes
      arenosillo avg ts]. rewrite <- G1, <- G2, <- G3, <- G4.
    repeat split.
  - exact Hts.
  - unfold get_window_size. rewrite <- (length_map ts), Hts.
    apply length_map.
Qed.

End MainSpec.

(* ================================================================== *)
(** * The geographic fallback and the bounding box *)

Module GeoSpec.
Import Py Env Models Fetcher Props MoreProps FloatFacts.

(** ** Canonical binary64 values and their order *)

Lemma valid_finite (s : bool) (m : positive) (e : Z) :
  valid_binary (S754_finite s m e) = true ->
  -1074 <= e /\ Zpos m < 2 ^ 53 /\ (e = -1074 \/ 2 ^ 52 <= Zpos m).
Proof.
  cbn [SpecFloat.valid_binary]. unfold bounded, canonical_mantissa, fexp, emin.
  intros H. apply andb_prop in H. destruct H as [H _]. apply Z.eqb_eq in H.
  change prec with 53 in H. change emax with 1024 in H.
  pose proof (digits2_bounds m) as [Hlo Hhi].
  revert H Hlo Hhi. generalize (Zpos (digits2_pos m)). intros d H Hlo Hhi.
  destruct (Z.max_spec (d + e - 53) (3 - 1024 - 53)) as [[Hlt Hmax] | [Hle Hmax]];
    rewrite Hmax in H.
  - split; [lia|]. split; [|left; lia].
    apply Z.lt_le_trans with (2 ^ d); [exact Hhi|].
    destruct (Z.le_gt_cases 0 d) as [Hd|Hd].
    + apply Z.pow_le_mono_r; lia.
    + rewrite Z.pow_neg_r by lia. lia.
  - assert (Hd : d = 53) by lia. subst d. split; [lia|].
    split; [exact Hhi | right; exact Hlo].
Qed.

Lemma scaled_finite_pos (m : positive) (e : Z) :
  -1074 <= e -> 0 < Zpos m * 2 ^ (e + 1074).
Proof.
  intros H. apply Z.mul_pos_pos; [lia | apply Z.pow_pos_nonneg; lia].
Qed.

Lemma scaled_exponent_lt (m1 m2 : positive) (e1 e2 : Z) :
  -1074 <= e1 -> e1 < e2 -> Zpos m1 < 2 ^ 53 -> 2 ^ 52 <= Zpos m2 ->
  Zpos m1 * 2 ^ (e1 + 1074) < Zpos m2 * 2 ^ (e2 + 1074).
Proof.
  intros He1 He Hm1 Hm2.
  assert (P : 0 < 2 ^ (e1 + 1074)) by (apply Z.pow_pos_nonneg; lia).
  assert (Q : 2 ^ 1 <= 2 ^ (e2 - e1)) by (apply Z.pow_le_mono_r; lia).
  replace (e2 + 1074) with ((e2 - e1) + (e1 + 1074)) by lia.
  rewrite (Z.pow_add_r 2 (e2 - e1) (e1 + 1074)) by lia.
  change (2 ^ 1) with 2 in Q. change (2 ^ 53) with (2 * 2 ^ 52) in Hm1.
  assert (H52 : 0 < 2 ^ 52) by reflexivity.
  revert P Q Hm1 Hm2 H52.
  generalize (2 ^ (e1 + 1074)) (2 ^ (e2 - e1)) (2 ^ 52) (Zpos m1) (Zpos m2).
  intros p q h a b P Q Ha Hb H52.
  apply Z.lt_le_trans with (2 * h * p).
  - apply Z.mul_lt_mono_pos_r; assumption.
  - replace (2 * h * p) with (h * (2 * p)) by ring.
    apply Z.mul_le_mono_nonneg; nia.
Qed.

Lemma SFcompare_scaled (x y : spec_float) :
  valid_binary x = true -> valid_binary y = true ->
  finite_or_zero x = true -> finite_or_zero y = true ->
  SFcompare x y = Some (scaled x ?= scaled y).
Proof.
  intros Hx Hy Fx Fy.
  destruct x as [sx|sx| |sx mx ex]; try discriminate Fx;
    destruct y as [sy|sy| |sy my ey]; try discriminate Fy.
  - reflexivity.
  - destruct (valid_finite _ _ _ Hy) as (Hey & _ & _).
    pose proof (scaled_finite_pos my ey Hey) as Py.
    cbn [SFcompare scaled]. f_equal. symmetry.
    destruct sy; cbn [cond_Zopp];
      [apply Z.compare_gt_iff | apply Z.compare_lt_iff]; lia.
  - destruct (valid_finite _ _ _ Hx) as (Hex & _ & _).
    pose proof (scaled_finite_pos mx ex Hex) as Px.
    cbn [SFcompare scaled]. f_equal. symmetry.
    destruct sx; cbn [cond_Zopp];
      [apply Z.compare_lt_iff | apply Z.compare_gt_iff]; lia.
  - destruct (valid_finite _ _ _ Hx) as (Hex & Hmx & Hnx).
    destruct (valid_finite _ _ _ Hy) as (Hey & Hmy & Hny).
    pose proof (scaled_finite_pos mx ex Hex) as Px.
    pose proof (scaled_finite_pos my ey Hey) as Py.
    cbn [SFcompare scaled]. f_equal.
    destruct sx, sy; cbn [cond_Zopp].
    + rewrite Z.compare_opp.
      destruct (Z.compare_spec ex ey) as [E|E|E].
      * subst ey.
        rewrite <- Zmult_compare_compat_r
          by (apply Z.lt_gt, Z.pow_pos_nonneg; lia).
        change (PosDef.Pos.compare_cont Eq mx my) with (Pos.compare mx my).
        rewrite (Pos.compare_antisym my mx), CompOpp_involutive.
        reflexivity.
      * symmetry. apply Z.compare_gt_iff.
        apply scaled_exponent_lt; [lia | lia | lia |].
        destruct Hny; [lia | assumption].
      * symmetry. apply Z.compare_lt_iff.
        apply scaled_exponent_lt; [lia | lia | lia |].
        destruct Hnx; [lia | assumption].
    + symmetry. apply Z.compare_lt_iff. lia.
    + symmetry. apply Z.compare_gt_iff. lia.
    + destruct (Z.compare_spec ex ey) as [E|E|E].
      * subst ey.
        rewrite <- Zmult_compare_compat_r
          by (apply Z.lt_gt, Z.pow_pos_nonneg; lia).
        reflexivity.
      * symmetry. apply Z.compare_lt_iff.
        apply scaled_exponent_lt; [lia | lia | lia |].
        destruct Hny; [lia | assumption].
      * symmetry. apply Z.compare_gt_iff.
        apply scaled_exponent_lt; [lia | lia | lia |].
        destruct Hnx; [lia | assumption].
Qed.

Lemma SFleb_scaled (x y : spec_float) :
  valid_binary x = true -> valid_binary y = true ->
  finite_or_zero x = true -> finite_or_zero y = true ->
  SFleb x y = (scaled x <=? scaled y).
Proof.
  intros Hx Hy Fx Fy. unfold SFleb, Z.leb.
  rewrite (SFcompare_scaled x y Hx Hy Fx Fy).
  destruct (scaled x ?= scaled y); reflexivity.
Qed.

(** ** Within one half of a constant *)

Lemma scaled_aligned (s : bool) (m : positive) (e ez : Z) :
  -1074 <= ez -> ez <= e ->
  scaled (S754_finite s m e)
  = cond_Zopp s (Zpos m * 2 ^ (e - ez)) * 2 ^ (ez + 1074).
Proof.
  intros H1 H2. cbn [scaled].
  replace (e + 1074) with ((e - ez) + (ez + 1074)) by lia.
  rewrite (Z.pow_add_r 2 (e - ez) (ez + 1074)) by lia.
  destruct s; cbn [cond_Zopp]; ring.
Qed.

Lemma within_half_scaled (x c : spec_float) :
  valid_binary x = true -> valid_binary c = true ->
  small_exponent c = true ->
  SFltb (SFabs c) half = false ->
  SFltb (SFabs (SFsub prec emax x c)) half = true ->
  finite_or_zero x = true /\ Z.abs (scaled x - scaled c) < half_scaled.
Proof.
  intros Hx Hc Hec Hz H.
  destruct c as [sc|sc| |sc mc ec]; try discriminate Hec.
  cbn [small_exponent] in Hec. apply Z.leb_le in Hec. cbn [SFabs] in Hz.
  destruct x as [s|s| |s m e].
  - cbn [SFsub SFabs] in H. rewrite Hz in H. discriminate H.
  - cbn [SFsub SFabs] in H. discriminate H.
  - cbn [SFsub SFabs] in H. discriminate H.
  - split; [reflexivity|].
    destruct (valid_finite _ _ _ Hx) as (He & _ & _).
    destruct (valid_finite _ _ _ Hc) as (Hec' & _ & _).
    cbn [SFsub] in H. set (ez := Z.min e ec) in *.
    assert (Hez1 : ez <= e) by apply Z.le_min_l.
    assert (Hez2 : ez <= ec) by apply Z.le_min_r.
    assert (Hez3 : -1074 <= ez) by (unfold ez; lia).
    destruct (shl_align_val m e ez Hez1) as [Hxv _].
    destruct (shl_align_val mc ec ez Hez2) as [Hcv _].
    rewrite Hxv, Hcv in H.
    rewrite (scaled_aligned s m e ez Hez3 Hez1).
    rewrite (scaled_aligned sc mc ec ez Hez3 Hez2).
    revert H.
    generalize (cond_Zopp s (Zpos m * 2 ^ (e - ez))).
    generalize (cond_Zopp sc (Zpos mc * 2 ^ (ec - ez))).
    intros C X H.
    assert (Hlt : Z.abs (X - C) < 2 ^ (-1 - ez)).
    { destruct (Z.lt_ge_cases (Z.abs (X - C)) (2 ^ (-1 - ez)))
        as [|Hge]; [assumption|].
      rewrite binary_normalize_ge_half in H; [discriminate H | lia | lia]. }
    rewrite <- Z.mul_sub_distr_r, Z.abs_mul.
    rewrite (Z.abs_eq (2 ^ (ez + 1074))) by (apply Z.pow_nonneg; lia).
    replace half_scaled with (2 ^ (-1 - ez) * 2 ^ (ez + 1074)).
    + apply Z.mul_lt_mono_pos_r; [apply Z.pow_pos_nonneg; lia | exact Hlt].
    + unfold half_scaled. rewrite <- Z.pow_add_r by lia. f_equal. lia.
Qed.

(** A number within one half of [c] lies between any two bounds that are
    at least one half away from [c]. *)
Lemma within_half_bounds (x c lo hi : float) :
  small_exponent (Prim2SF c) = true ->
  SFltb (SFabs (Prim2SF c)) half = false ->
  finite_or_zero (Prim2SF lo) = true ->
  finite_or_zero (Prim2SF hi) = true ->
  (scaled (Prim2SF lo) <=? scaled (Prim2SF c) - half_scaled) = true ->
  (scaled (Prim2SF c) + half_scaled <=? scaled (Prim2SF hi)) = true ->
  (abs (x - c) <? 0.5)%float = true ->
  (lo <=? x)%float = true /\ (x <=? hi)%float = true.
Proof.
  intros Hc Hz Flo Fhi Hlo Hhi.
  rewrite ltb_spec, abs_spec, sub_spec, !leb_spec.
  change (Prim2SF 0.5%float) with half. intros H.
  destruct (within_half_scaled (Prim2SF x) (Prim2SF c)
              (Prim2SF_valid x) (Prim2SF_valid c) Hc Hz H) as [Fx Hx].
  rewrite (SFleb_scaled _ _ (Prim2SF_valid lo) (Prim2SF_valid x) Flo Fx).
  rewrite (SFleb_scaled _ _ (Prim2SF_valid x) (Prim2SF_valid hi) Fx Fhi).
  apply Z.leb_le in Hlo, Hhi. rewrite !Z.leb_le.
  revert Hx Hlo Hhi.
  generalize (scaled (Prim2SF x)) (scaled (Prim2SF c)) (scaled (Prim2SF lo))
    (scaled (Prim2SF hi)) half_scaled.
  intros; lia.
Qed.

Lemma near_in_spain (lat lon clat clon : float) :
  small_exponent (Prim2SF clat) = true ->
  small_exponent (Prim2SF clon) = true ->
  SFltb (SFabs (Prim2SF clat)) half = false ->
  SFltb (SFabs (Prim2SF clon)) half = false ->
  (scaled (Prim2SF SPAIN_LAT_MIN) <=? scaled (Prim2SF clat) - half_scaled)
  = true ->
  (scaled (Prim2SF clat) + half_scaled <=? scaled (Prim2SF SPAIN_LAT_MAX))
  = true ->
  (scaled (Prim2SF SPAIN_LON_MIN) <=? scaled (Prim2SF clon) - half_scaled)
  = true ->
  (scaled (Prim2SF clon) + half_scaled <=? scaled (Prim2SF SPAIN_LON_MAX))
  = true ->
  near lat lon clat clon = true -> in_spain lat lon = true.
Proof.
  intros H1 H2 H3 H4 H5 H6 H7 H8 H. unfold near in H.
  apply andb_prop in H. destruct H as [Hlat Hlon].
  destruct (within_half_bounds lat clat SPAIN_LAT_MIN SPAIN_LAT_MAX
              H1 H3 eq_refl eq_refl H5 H6 Hlat) as [A B].
  destruct (within_half_bounds lon clon SPAIN_LON_MIN SPAIN_LON_MAX
              H2 H4 eq_refl eq_refl H7 H8 Hlon) as [C D].
  unfold in_spain. rewrite A, B, C, D. reflexivity.
Qed.

(** X19. The geographic fallback never leaves the bounding box of
    [is_spanish_station]: coordinates within the tolerance of either
    station, in binary64 arithmetic, pass the box test, so a record the
    resolver identifies by its coordinates is one that
    [is_spanish_station] answers [True] for. *)
Theorem geo_match_inside_spain :
  forall (lat lon : float) (k : string),
    geo_match lat lon = Some k ->
    in_spain lat lon = true /\
    (forall d info : dict pyval,
        get_default d "station" (PyDict []) = PyDict info ->
        py_float (get_default info "latitude" (PyInt 0)) = Ok lat ->
        py_float (get_default info "longitude" (PyInt 0)) = Ok lon ->
        is_spanish_station (PyDict d) = Ok true).
Proof.
  intros lat lon k H.
  assert (G : in_spain lat lon = true).
  { unfold geo_match in H.
    destruct (near lat lon 40.8 0.5) eqn:E1.
    - apply (near_in_spain lat lon 40.8 0.5); try exact E1;
        vm_compute; reflexivity.
    - destruct (near lat lon 37.1 (-6.7)) eqn:E2; [|discriminate H].
      apply (near_in_spain lat lon 37.1 (-6.7)); try exact E2;
        vm_compute; reflexivity. }
  split; [exact G|].
  intros d info Hs Hlat Hlon. unfold is_spanish_station.
  cbn [py_get rbind]. rewrite Hs. cbn [py_get rbind].
  rewrite Hlat. cbn [rbind]. rewrite Hlon. cbn [rbind].
  fold (in_spain lat lon). rewrite G. reflexivity.
Qed.

Lemma geo_match_inside_spain_witness :
  in_spain 37.05%float (-6.8)%float = true.
Proof.
  apply (geo_match_inside_spain 37.05%float (-6.8)%float "arenosillo").
  vm_compute. reflexivity.
Defined.

End GeoSpec.
